(** * MLflow tracking UI: request-outcome aggregation and persisted view state

    A shallow embedding of
      - [mlflow/server/js/src/common/utils.js] ([shouldRender404]), and
      - [mlflow/server/js/src/sdk/MlflowLocalStorageMessages.js]
        (the two [Immutable.Record] schemas of persisted page state),
    together with models of the storage codec and of the column-bagging
    operations that the specification describes around these schemas. *)

From Stdlib Require Import ZArith Ascii.
From stdpp Require Import gmap strings list countable.

Local Open Scope string_scope.
Local Open Scope list_scope.

(** ** JavaScript values and completions *)

(** The values that can sit in the [error] slot of a request descriptor.
    [JsErrorWrapper code] is an object whose [getErrorCode()] method returns
    [code]; [JsObject] stands for any other object (it has no such method). *)
Inductive JsValue : Type :=
| JsUndefined
| JsNull
| JsBool (b : bool)
| JsNumber (n : Z)
| JsNaN
| JsString (s : string)
| JsErrorWrapper (code : string)
| JsObject.

Inductive JsError : Type :=
| TypeError.

(** The outcome of evaluating a JavaScript expression: a value or a throw. *)
Inductive Completion (A : Type) : Type :=
| Normal (a : A)
| Throw (e : JsError).
Arguments Normal {A} a.
Arguments Throw {A} e.

#[global] Instance Completion_ret : MRet Completion := fun A a => Normal a.
#[global] Instance Completion_bind : MBind Completion := fun A B f m =>
  match m with
  | Normal a => f a
  | Throw e => Throw e
  end.
#[global] Instance Completion_fmap : FMap Completion := fun A B f m =>
  match m with
  | Normal a => Normal (f a)
  | Throw e => Throw e
  end.

(** ECMAScript [ToBoolean]: the falsy values are [undefined], [null], [false],
    [0], [NaN] and the empty string. *)
Definition ToBoolean (v : JsValue) : bool :=
  match v with
  | JsUndefined | JsNull | JsNaN => false
  | JsBool b => b
  | JsNumber n => negb (n =? 0)%Z
  | JsString s => negb (String.eqb s "")
  | JsErrorWrapper _ | JsObject => true
  end.

(** [v.getErrorCode()]: only an error wrapper has the method; on any other
    value the call is a [TypeError]. *)
Definition getErrorCode (v : JsValue) : Completion string :=
  match v with
  | JsErrorWrapper code => Normal code
  | _ => Throw TypeError
  end.

(** [Array.prototype.includes] on an array of strings. *)
Definition includes (xs : list string) (x : string) : bool :=
  existsb (String.eqb x) xs.

(** [Array.prototype.some]: the callback results are coerced with [ToBoolean];
    iteration stops at the first truthy result, and a throwing callback aborts
    the whole call. *)
Fixpoint some {A : Type} (f : A → Completion JsValue) (xs : list A)
  : Completion bool :=
  match xs with
  | [] => Normal false
  | x :: xs' =>
      v ← f x;
      if ToBoolean v then Normal true else some f xs'
  end.

(** ** common/utils.js *)

Module Utils.

(** A request descriptor as the networking layer keeps it: only the two
    properties that [shouldRender404] reads. *)
Record Request : Type := mkRequest {
  id : string;
  error : JsValue;
}.

Section ShouldRender404.

(** [ErrorCodes.RESOURCE_DOES_NOT_EXIST]: the table [../sdk/ErrorCodes] is
    imported by utils.js; the value of this entry is left open. *)
Variable RESOURCE_DOES_NOT_EXIST : string.

(** The arrow function handed to [some]:
    [const { error } = request;
     return error && error.getErrorCode() === ErrorCodes.RESOURCE_DOES_NOT_EXIST;] *)
Definition isResourceDoesNotExist (request : Request) : Completion JsValue :=
  let error := request.(error) in
  if ToBoolean error then
    code ← getErrorCode error;
    Normal (JsBool (String.eqb code RESOURCE_DOES_NOT_EXIST))
  else Normal error.

Definition shouldRender404 (requests : list Request) (requestIdsToCheck : list string)
  : Completion bool :=
  let requestsToCheck :=
    filter (λ request, includes requestIdsToCheck request.(id) = true) requests in
  some isResourceDoesNotExist requestsToCheck.

End ShouldRender404.

(** The shape the networking layer gives a descriptor: the [error] slot is
    either falsy (the request is pending or succeeded) or an error wrapper. *)
Definition RequestDescriptor (r : Request) : Prop :=
  ToBoolean r.(error) = false ∨ ∃ code, r.(error) = JsErrorWrapper code.

End Utils.

(** ** common/utils.js over an explicit object store

    JavaScript arrays and objects are references.  To speak about what a call
    leaves untouched, the same function is given a second time over a heap of
    cells, where [requests], every request in it and [requestIdsToCheck] are
    locations and [Array.prototype.filter] allocates its result.  An error
    wrapper is kept as a value inside its request object: its [getErrorCode]
    method, whose class is not part of utils.js, is taken to read only. *)

Module UtilsHeap.

Definition loc : Type := positive.

Inductive Cell : Type :=
| RequestObject (r : Utils.Request)
| RequestArray (elems : list loc)
| IdArray (elems : list string).

Abbreviation Heap := (gmap loc Cell).

(** State and exception monad: the heap is threaded, also through a throw. *)
Definition M (A : Type) : Type := Heap → Completion A * Heap.

#[global] Instance M_ret : MRet M := λ A a h, (Normal a, h).
#[global] Instance M_bind : MBind M := λ A B f m h,
  match m h with
  | (Normal a, h') => f a h'
  | (Throw e, h') => (Throw e, h')
  end.

Definition throw {A : Type} (e : JsError) : M A := λ h, (Throw e, h).

Definition lift {A : Type} (c : Completion A) : M A := λ h, (c, h).

(** Dereference.  A reference that does not denote a cell of the expected
    shape surfaces as a [TypeError]. *)
Definition load (l : loc) : M Cell := λ h,
  match h !! l with
  | Some c => (Normal c, h)
  | None => (Throw TypeError, h)
  end.

Definition alloc (c : Cell) : M loc := λ h,
  let l := fresh (dom h) in (Normal l, <[l := c]> h).

Definition loadRequest (l : loc) : M Utils.Request :=
  c ← load l;
  match c with
  | RequestObject r => mret r
  | _ => throw TypeError
  end.

Definition loadRequestArray (l : loc) : M (list loc) :=
  c ← load l;
  match c with
  | RequestArray elems => mret elems
  | _ => throw TypeError
  end.

Definition loadIdArray (l : loc) : M (list string) :=
  c ← load l;
  match c with
  | IdArray elems => mret elems
  | _ => throw TypeError
  end.

(** The loop of [Array.prototype.filter]: the callback runs once per element,
    in order. *)
Fixpoint filterLoop (f : loc → M bool) (elems : list loc) : M (list loc) :=
  match elems with
  | [] => mret []
  | x :: elems' =>
      keep ← f x;
      kept ← filterLoop f elems';
      mret (if keep : bool then x :: kept else kept)
  end.

(** [arr.filter(f)]: a fresh array holding the kept references. *)
Definition arrayFilter (f : loc → M bool) (arr : loc) : M loc :=
  elems ← loadRequestArray arr;
  kept ← filterLoop f elems;
  alloc (RequestArray kept).

Fixpoint someLoop (f : loc → M JsValue) (elems : list loc) : M bool :=
  match elems with
  | [] => mret false
  | x :: elems' =>
      v ← f x;
      if ToBoolean v then mret true else someLoop f elems'
  end.

Definition arraySome (f : loc → M JsValue) (arr : loc) : M bool :=
  elems ← loadRequestArray arr;
  someLoop f elems.

(** [ids.includes(x)] *)
Definition arrayIncludes (ids : loc) (x : string) : M bool :=
  elems ← loadIdArray ids;
  mret (includes elems x).

Section ShouldRender404.

Variable RESOURCE_DOES_NOT_EXIST : string.

Definition isResourceDoesNotExist (request : loc) : M JsValue :=
  r ← loadRequest request;
  let error := r.(Utils.error) in
  if ToBoolean error then
    code ← lift (getErrorCode error);
    mret (JsBool (String.eqb code RESOURCE_DOES_NOT_EXIST))
  else mret error.

Definition shouldRender404 (requests requestIdsToCheck : loc) : M bool :=
  requestsToCheck ←
    arrayFilter (λ request,
                   r ← loadRequest request;
                   arrayIncludes requestIdsToCheck r.(Utils.id)) requests;
  arraySome isResourceDoesNotExist requestsToCheck.

End ShouldRender404.

(** A computation only extends the heap: every cell that was there is still
    there, unchanged. *)
Definition extends {A : Type} (m : M A) : Prop :=
  ∀ h : Heap, h ⊆ (m h).2.

(** A heap in which [requests] is an array of the request objects [rs] and
    [ids] is the array of identifiers [xs]. *)
Definition represents (h : Heap) (requests ids : loc)
    (rs : list Utils.Request) (xs : list string) : Prop :=
  ∃ elems, h !! requests = Some (RequestArray elems) ∧
           Forall2 (λ l r, h !! l = Some (RequestObject r)) elems rs ∧
           h !! ids = Some (IdArray xs).

End UtilsHeap.

(** ** JSON data *)

(** What a stored payload parses to, and what the fields of a persisted state
    hold.  An object lists its own properties; where a key occurs twice in the
    list, the first occurrence is the property.  [JUndefined] is the value
    that reading a missing index or property yields; a field of a record can
    hold it. *)
#[local] Unset Elimination Schemes.
Inductive json : Type :=
| JNull
| JBool (b : bool)
| JNumber (n : Z)
| JString (s : string)
| JArray (xs : list json)
| JObject (fields : list (string * json))
| JUndefined.
#[local] Set Elimination Schemes.

(** Lookup in a property list. *)
Fixpoint assoc {A : Type} (k : string) (fields : list (string * A)) : option A :=
  match fields with
  | [] => None
  | (k', v) :: fields' => if String.eqb k' k then Some v else assoc k fields'
  end.

(** [values[k]] when [values] is an object that has the property [k]. *)
Definition property (k : string) (values : json) : option json :=
  match values with
  | JObject fields => assoc k fields
  | _ => None
  end.

(** The object [values] without its property [k]. *)
Definition withoutProperty (k : string) (values : json) : json :=
  match values with
  | JObject fields => JObject (filter (λ kv, String.eqb kv.1 k = false) fields)
  | _ => values
  end.

(** ** Immutable.Record

    The library behaviour that MlflowLocalStorageMessages.js relies on and
    documents in its header.  A record type is declared by its default
    values.  The constructor hands its argument to the library's [Map] and
    keeps the result; reading a field of the record reads the map, with the
    declared default for a key the map does not have.  So a declared field is
    taken from the argument when the argument has it and from the defaults
    otherwise, and what the record type does not declare is ignored.

    [Map] accepts keyed data only: [null] or [undefined] (no entries), a plain
    object (its own properties), or an array of entries.  On a number, a
    boolean or a string it throws a TypeError.

    A plain object is taken as JSON data has it, with its own properties as
    its entries.  The library tells its own collections from plain objects by
    marker properties, whose names start with [@@__IMMUTABLE_].  The plain
    form of a value of the two record types of the source does not carry
    them; an object that does is outside what is modelled here. *)

Module Immutable.

(** [Immutable.Record(defaultValues, name)] *)
Record RecordType : Type := mkRecord {
  defaultValues : gmap string json;
  name : string;
}.

(** ECMAScript [ToBoolean] on these values. *)
Definition truthy (j : json) : bool :=
  match j with
  | JNull | JUndefined => false
  | JBool b => b
  | JNumber n => negb (n =? 0)%Z
  | JString s => negb (String.eqb s "")
  | JArray _ | JObject _ => true
  end.

(** [entry[i]], where [name] is the index [i] written as a property name. *)
Definition element (i : nat) (name : string) (entry : json) : json :=
  match entry with
  | JArray xs => default JUndefined (xs !! i)
  | JObject fields => default JUndefined (assoc name fields)
  | _ => JUndefined
  end.

(** [entry[0]] and [entry[1]] *)
Definition entryKey (entry : json) : json := element 0 "0" entry.
Definition entryValue (entry : json) : json := element 1 "1" entry.

(** The entries that [Map] reads off an array: a falsy element is skipped, an
    array or an object [e] is the entry of key [e[0]] and value [e[1]], and
    any other element is a TypeError (the library expects a [[K, V]] tuple). *)
Fixpoint fromEntrySeq (es : list json) : Completion (list (json * json)) :=
  match es with
  | [] => Normal []
  | e :: es' =>
      if truthy e then
        match e with
        | JArray _ | JObject _ =>
            rest ← fromEntrySeq es';
            Normal ((entryKey e, entryValue e) :: rest)
        | _ => Throw TypeError
        end
      else fromEntrySeq es'
  end.

(** The entries under string keys, as a property list.  [Map] sets the
    entries in order, a later one overwriting an earlier one of the same key,
    so the list is reversed: the first occurrence is then the one that
    counts.  An entry under a key that is not a string cannot be reached by a
    field name and is left out. *)
Definition stringKeyed (entries : list (json * json)) : list (string * json) :=
  reverse (omap (λ kv, match kv.1 with
                       | JString k => Some (k, kv.2)
                       | _ => None
                       end) entries).

(** [Immutable.Map(values)], as the property list of its string keys. *)
Definition Map (values : json) : Completion (list (string * json)) :=
  match values with
  | JNull | JUndefined => Normal []
  | JObject fields => Normal fields
  | JArray es => entries ← fromEntrySeq es; Normal (stringKeyed entries)
  | JBool _ | JNumber _ | JString _ => Throw TypeError
  end.

(** The record value of type [T] that keeps [map]: the field [k] reads
    [map.get(k, defaultValues[k])].  A record value is given as the map from
    its field names to what they read. *)
Definition withDefaults (T : RecordType) (map : list (string * json))
  : gmap string json :=
  map_imap (λ k d, Some (default d (assoc k map))) T.(defaultValues).

(** [new T(values)] *)
Definition construct (T : RecordType) (values : json)
  : Completion (gmap string json) :=
  map ← Map values; Normal (withDefaults T map).

(** [new T()] *)
Definition defaults (T : RecordType) : gmap string json := T.(defaultValues).

(** [r.get(k)] *)
Definition get (k : string) (r : gmap string json) : option json := r !! k.

(** [r.toJSON()] *)
Definition toJSON (r : gmap string json) : json := JObject (map_to_list r).

(** [r] is a value of the record type [T]: it has exactly the declared
    fields. *)
Definition instanceOf (T : RecordType) (r : gmap string json) : Prop :=
  dom r = dom T.(defaultValues).

End Immutable.

(** ** sdk/MlflowLocalStorageMessages.js *)

Module MlflowLocalStorageMessages.
Import Immutable.

Definition ExperimentPagePersistedState : RecordType :=
  mkRecord
    (list_to_map
       [ ("paramKeyFilterString", JString "");
         ("metricKeyFilterString", JString "");
         ("searchInput", JString "");
         ("orderByKey", JNull);
         ("orderByAsc", JBool false) ])
    "ExperimentPagePersistedState".

Definition ExperimentViewPersistedState : RecordType :=
  mkRecord
    (list_to_map
       [ ("runsHiddenByExpander", JObject []);
         ("runsExpanded", JObject []);
         ("unbaggedMetrics", JArray []);
         ("unbaggedParams", JArray []) ])
    "ExperimentViewPersistedState".

End MlflowLocalStorageMessages.

(** ** The durable store and the payload format *)

(** Entries are addressed by a page-kind identifier and a context key. *)
Definition StorageKey : Type := string * string.

(** Modelled from the spec: the storage port (get and set by key) through
    which page state reaches the browser's durable key-value store; the
    repository's local-storage utilities are not among the sources.  A write
    can fail (the store is unavailable or full): [setItem] then yields [None]
    and the store keeps its contents. *)
Class StoragePort (Store : Type) : Type := {
  getItem : Store → StorageKey → option string;
  setItem : Store → StorageKey → string → option Store;
}.

(** Modelled from the spec: the string representation of a state.  The spec
    leaves the format open; [parse] yields [None] on an unparseable payload. *)
Class PayloadCodec : Type := {
  stringify : json → string;
  parse : string → option json;
}.



Module StorageCodec.
Import Immutable.

Section WithPort.
Context {Store : Type} {port : StoragePort Store} {codec : PayloadCodec}.

(** The page kind is given by its record type: the name identifies the kind
    in the storage key, the default values are the schema. *)
Definition storageKey (pageKind : RecordType) (contextKey : string) : StorageKey :=
  (pageKind.(name), contextKey).

(** Modelled from the spec: [encode(pageKind, contextKey, state)] serializes
    the state and writes it under the key of [(pageKind, contextKey)],
    overwriting what was there; a write failure is swallowed.  The function
    that does this in the repository is not among the sources. *)
Definition encode (pageKind : RecordType) (contextKey : string)
    (state : gmap string json) (store : Store) : Store :=
  match setItem store (storageKey pageKind contextKey) (stringify (toJSON state)) with
  | Some store' => store'
  | None => store
  end.

(** Modelled from the spec: [decode(pageKind, contextKey)] reads the stored
    string; absent or unparseable, the result is the schema default; parsed,
    its fields are merged over the schema default by the record constructor.
    These are the steps the spec gives; none of them handles a throw of the
    constructor, which therefore reaches the caller.  The function that does
    this in the repository is not among the sources. *)
Definition decode (pageKind : RecordType) (contextKey : string)
    (store : Store) : Completion (gmap string json) :=
  match getItem store (storageKey pageKind contextKey) with
  | None => Normal (defaults pageKind)
  | Some payload =>
      match parse payload with
      | None => Normal (defaults pageKind)
      | Some values => construct pageKind values
      end
  end.


End WithPort.
End StorageCodec.

(** ** Split-out columns *)

Module ColumnBaggingModel.
Import Immutable.

Inductive ColumnKind : Type := Metric | Param.

#[global] Instance ColumnKind_eq_dec : EqDecision ColumnKind.
Proof. solve_decision. Defined.

(** The field of [ExperimentViewPersistedState] that holds the sequence. *)
Definition sequenceField (columnKind : ColumnKind) : string :=
  match columnKind with
  | Metric => "unbaggedMetrics"
  | Param => "unbaggedParams"
  end.

(** The ordered sequence of split-out keys of one column kind. *)
Definition orderedSequence (state : gmap string json) (columnKind : ColumnKind)
  : list json :=
  match get (sequenceField columnKind) state with
  | Some (JArray xs) => xs
  | _ => []
  end.

(** The element [x] of a sequence is the key [key]. *)
Definition isKey (key : string) (x : json) : bool :=
  match x with
  | JString s => String.eqb s key
  | _ => false
  end.

(** The state with [xs] as the sequence of [columnKind]. *)
Definition withSequence (state : gmap string json) (columnKind : ColumnKind)
    (xs : list json) : gmap string json :=
  <[sequenceField columnKind := JArray xs]> state.

(** Modelled from the spec: [split(state, columnKind, key)] appends [key] to
    the end of the sequence of [columnKind] if it is not already present and
    does nothing otherwise.  The component methods that do this in the
    repository are not among the sources. *)
Definition split (state : gmap string json) (columnKind : ColumnKind)
    (key : string) : gmap string json :=
  let xs := orderedSequence state columnKind in
  if existsb (isKey key) xs then state
  else withSequence state columnKind (xs ++ [JString key]).

(** Modelled from the spec: [merge(state, columnKind, key)] removes [key] from
    the sequence of [columnKind] if it is present, so that no occurrence of it
    remains, and does nothing otherwise.  The component methods that do this
    in the repository are not among the sources. *)
Definition merge (state : gmap string json) (columnKind : ColumnKind)
    (key : string) : gmap string json :=
  let xs := orderedSequence state columnKind in
  if existsb (isKey key) xs
  then withSequence state columnKind (filter (λ x, isKey key x = false) xs)
  else state.

Inductive Operation : Type :=
| Split (columnKind : ColumnKind) (key : string)
| Merge (columnKind : ColumnKind) (key : string).

Definition apply (state : gmap string json) (op : Operation) : gmap string json :=
  match op with
  | Split c key => split state c key
  | Merge c key => merge state c key
  end.

(** A finite sequence of operations, applied from left to right. *)
Definition run (ops : list Operation) (state : gmap string json) : gmap string json :=
  fold_left apply ops state.

Definition sameKind (c c' : ColumnKind) : bool :=
  match c, c' with
  | Metric, Metric | Param, Param => true
  | _, _ => false
  end.

(** [x] is the target of some merge on [columnKind] among [ops]. *)
Definition mergedOut (columnKind : ColumnKind) (ops : list Operation) (x : json)
  : bool :=
  existsb (λ op, match op with
                 | Merge c key => sameKind c columnKind && isKey key x
                 | Split _ _ => false
                 end) ops.

(** The same, read off the list from its head: [x] is an element and [y]
    occurs in what follows it. *)
Fixpoint occursBefore (x y : json) (xs : list json) : Prop :=
  match xs with
  | [] => False
  | a :: xs' => (a = x ∧ y ∈ xs') ∨ occursBefore x y xs'
  end.

(** [x] occurs somewhere before [y] in [xs]. *)
Definition precedes (x y : json) (xs : list json) : Prop :=
  ∃ xs1 xs2 xs3 : list json, xs = xs1 ++ x :: xs2 ++ y :: xs3.

End ColumnBaggingModel.

(** ** Two stores and one payload format

    Concrete instances of the two interfaces, of the kind a test would inject:
    an unbounded in-memory store, a store with a quota, and a lossless
    format. *)

Module Fakes.

(** An in-memory store that accepts every write. *)
Definition MemoryStore : StoragePort (gmap StorageKey string) := {|
  getItem store key := store !! key;
  setItem store key payload := Some (<[key := payload]> store);
|}.

(** A store that holds at most [free] further characters; overwriting an entry
    gives no space back. *)
Record Bounded : Type := {
  items : gmap StorageKey string;
  free : nat;
}.

Definition BoundedStore : StoragePort Bounded := {|
  getItem store key := store.(items) !! key;
  setItem store key payload :=
    if decide (String.length payload ≤ store.(free))%nat
    then Some {| items := <[key := payload]> store.(items);
                 free := store.(free) - String.length payload |}
    else None;
|}.

(** The payload format: a JSON value is flattened to a tree over its scalars,
    the tree is numbered, and the number is written in binary. *)
Definition Scalar : Type := bool + Z + string.

Fixpoint jsonToTree (j : json) : gen_tree Scalar :=
  match j with
  | JNull => GenNode 0 []
  | JBool b => GenLeaf (inl (inl b))
  | JNumber n => GenLeaf (inl (inr n))
  | JString s => GenLeaf (inr s)
  | JArray xs => GenNode 1 (map jsonToTree xs)
  | JObject fields =>
      GenNode 2 (map (λ kv, GenNode 3 [GenLeaf (inr kv.1); jsonToTree kv.2]) fields)
  | JUndefined => GenNode 4 []
  end.

Fixpoint treeToJson (t : gen_tree Scalar) : option json :=
  match t with
  | GenLeaf (inl (inl b)) => Some (JBool b)
  | GenLeaf (inl (inr n)) => Some (JNumber n)
  | GenLeaf (inr s) => Some (JString s)
  | GenNode 0 [] => Some JNull
  | GenNode 1 ts => JArray <$> mapM treeToJson ts
  | GenNode 2 ts =>
      JObject <$> mapM (λ t', match t' with
                              | GenNode 3 [GenLeaf (inr k); v] =>
                                  pair k <$> treeToJson v
                              | _ => None
                              end) ts
  | GenNode 4 [] => Some JUndefined
  | _ => None
  end.

Fixpoint bitsOfPositive (p : positive) : string :=
  match p with
  | xH => ""
  | xO p' => String "0"%char (bitsOfPositive p')
  | xI p' => String "1"%char (bitsOfPositive p')
  end.

Fixpoint positiveOfBits (s : string) : option positive :=
  match s with
  | "" => Some xH
  | String a s' =>
      p ← positiveOfBits s';
      if Ascii.eqb a "0"%char then Some (xO p)
      else if Ascii.eqb a "1"%char then Some (xI p)
      else None
  end.

Definition BitCodec : PayloadCodec := {|
  stringify j := bitsOfPositive (countable.encode (jsonToTree j));
  parse s := p ← positiveOfBits s; t ← countable.decode p; treeToJson t;
|}.

End Fakes.

(** ** Concrete inputs *)

Module Examples.
Import Immutable MlflowLocalStorageMessages ColumnBaggingModel Fakes.

(** Two requests: [a] succeeded, [b] failed with the error code [code]. *)
Definition exampleRequests (code : string) : list Utils.Request :=
  [ Utils.mkRequest "a" JsUndefined; Utils.mkRequest "b" (JsErrorWrapper code) ].

(** The same two requests on a heap: the array at 1 refers to the request
    objects at 3 and 4, the identifiers to check are the array at 2. *)
Definition exampleHeap (code : string) : gmap positive UtilsHeap.Cell :=
  <[1%positive := UtilsHeap.RequestArray [3; 4]%positive]>
  (<[2%positive := UtilsHeap.IdArray ["a"; "b"]]>
  (<[3%positive := UtilsHeap.RequestObject (Utils.mkRequest "a" JsUndefined)]>
  (<[4%positive := UtilsHeap.RequestObject (Utils.mkRequest "b" (JsErrorWrapper code))]>
   ∅))).



(** A store that holds one payload, under the key of the experiment page "0". *)
Definition storeWith (payload : string) : gmap StorageKey string :=
  {[ ("ExperimentPagePersistedState", "0") := payload ]}.


(** A payload written before most fields existed. *)
Definition partialPayload : json := JObject [("orderByAsc", JBool true)].

(** A payload with a field that the schema no longer declares. *)
Definition legacyPayload : json :=
  JObject [("orderByAsc", JBool true); ("legacyField", JNumber 7)].


Definition entriesPayload : json :=
  JArray [JArray [JString "orderByAsc"; JBool true]].

(** A view state with two split-out metrics. *)
Definition twoMetrics : gmap string json :=
  withSequence (defaults ExperimentViewPersistedState) Metric
    [JString "a"; JString "b"].

End Examples.

(** ** How [shouldRender404] treats one request *)

Module UtilsCases.

Section Cases.
Variable RESOURCE_DOES_NOT_EXIST : string.

(** The callback of [some] yields a falsy value: the [error] slot is falsy, or
    it is an error wrapper with another code. *)
Definition passedOver (r : Utils.Request) : Prop :=
  ToBoolean r.(Utils.error) = false ∨
  ∃ code, r.(Utils.error) = JsErrorWrapper code ∧ code ≠ RESOURCE_DOES_NOT_EXIST.

(** The callback of [some] throws: the [error] slot is truthy and has no
    [getErrorCode]. *)
Definition malformed (r : Utils.Request) : Prop :=
  ToBoolean r.(Utils.error) = true ∧ ∀ code, r.(Utils.error) ≠ JsErrorWrapper code.

End Cases.

(** [requestsToCheck], the constant of the source. *)
Definition requestsToCheck (requests : list Utils.Request)
    (requestIdsToCheck : list string) : list Utils.Request :=
  filter (λ request, includes requestIdsToCheck request.(Utils.id) = true) requests.

End UtilsCases.

(** ** The component ModelVersionTable

    It follows the record schemas in the same source file.  Of the component,
    the part embedded is what [render] hands to the table: the rows and their
    keys. *)

Module ModelVersionTable.

(** A model version, with the properties the component reads. *)
Record ModelVersion : Type := mkModelVersion {
  version : string;
  creation_timestamp : Z;
  user_id : string;
  current_stage : string;
  status : string;
  status_message : option string;
}.

(** [propTypes], with [defaultProps] giving [modelVersions = []] and
    [activeStageOnly = false]. *)
Record Props : Type := mkProps {
  modelName : string;
  modelVersions : list ModelVersion;
  activeStageOnly : bool;
}.

Definition defaultProps (modelName : string) : Props :=
  mkProps modelName [] false.

(** [getRowKey = (record) => record.creation_timestamp] *)
Definition getRowKey (record : ModelVersion) : Z := record.(creation_timestamp).

Section Render.

(** [ACTIVE_STAGES] is imported from [../constants]; its value is left
    open. *)
Variable ACTIVE_STAGES : list string.

(** The constant [versions] of [render], handed to the table as
    [dataSource]. *)
Definition versions (props : Props) : list ModelVersion :=
  if props.(activeStageOnly)
  then filter (λ v, includes ACTIVE_STAGES v.(current_stage) = true)
              props.(modelVersions)
  else props.(modelVersions).

End Render.

End ModelVersionTable.

(** ** Changes to a record type *)

Module SchemaChange.
Import Immutable.

(** The record type [T] with the field [field] declared with default [d]: a
    field added, or the default of a declared field replaced. *)
Definition withField (T : RecordType) (field : string) (d : json) : RecordType :=
  mkRecord (<[field := d]> T.(defaultValues)) T.(name).

(** The record type [T] without the field [field]. *)
Definition withoutField (T : RecordType) (field : string) : RecordType :=
  mkRecord (delete field T.(defaultValues)) T.(name).

End SchemaChange.

(** ** More concrete inputs *)

Module MoreExamples.
Import ModelVersionTable.

Definition stagingVersion : ModelVersion :=
  mkModelVersion "1" 1570000000000 "alice" "Staging" "READY" None.

Definition archivedVersion : ModelVersion :=
  mkModelVersion "2" 1570000001000 "bob" "Archived" "READY" None.

Definition productionVersion : ModelVersion :=
  mkModelVersion "3" 1570000002000 "alice" "Production" "READY" (Some "ok").

Definition exampleProps (activeStageOnly : bool) : Props :=
  mkProps "model" [stagingVersion; archivedVersion; productionVersion] activeStageOnly.

(** A request whose [error] slot holds something that is neither falsy nor an
    error wrapper. *)
Definition brokenRequest : Utils.Request := Utils.mkRequest "z" (JsString "boom").

(** The experiment page schema with one more field. *)
Definition lifecycleFilterDefault : json := JString "Active".

(** Data stored before that field existed. *)
Definition oldPageData : json :=
  JObject [("searchInput", JString "metrics.rmse < 1"); ("orderByAsc", JBool true)].

(** The same kind of data as an array of entries, one of them for the new
    field. *)
Definition oldPageEntries : json :=
  JArray [JArray [JString "lifecycleFilter"; JString "X"]].

End MoreExamples.

(** * Properties *)

(** ** Request-outcome aggregation *)

Section UtilsFacts.
Import Utils.

Variable RESOURCE_DOES_NOT_EXIST : string.

Abbreviation isRDNE := (isResourceDoesNotExist RESOURCE_DOES_NOT_EXIST).
Abbreviation render404 := (shouldRender404 RESOURCE_DOES_NOT_EXIST).

Lemma includes_elem_of (xs : list string) (x : string) :
  includes xs x = true ↔ x ∈ xs.
Proof.
  unfold includes. rewrite existsb_exists. split.
  - intros (y & Hy & Heq). apply String.eqb_eq in Heq. subst y.
    by apply list_elem_of_In.
  - intros Hx. exists x. split; [by apply list_elem_of_In | apply String.eqb_refl].
Qed.

(** The falsy values, one by one. *)
Lemma ToBoolean_false (v : JsValue) :
  ToBoolean v = false ↔
  v = JsUndefined ∨ v = JsNull ∨ v = JsBool false ∨ v = JsNumber 0 ∨
  v = JsNaN ∨ v = JsString "".
Proof.
  split.
  - destruct v as [| | [] | n | | s | |]; simpl; try discriminate; auto 7.
    + intros Hn. apply negb_false_iff, Z.eqb_eq in Hn. subst n. auto 7.
    + intros Hs. apply negb_false_iff, String.eqb_eq in Hs. subst s. auto 7.
  - intros [-> | [-> | [-> | [-> | [-> | ->]]]]]; reflexivity.
Qed.

(** On a falsy [error] the guard [error && ...] yields [error] itself; the
    method is not called. *)
Lemma isRDNE_falsy (r : Request) :
  ToBoolean r.(error) = false → isRDNE r = Normal r.(error).
Proof. intros Hf. unfold isResourceDoesNotExist. by rewrite Hf. Qed.

Lemma isRDNE_wrapper (r : Request) (code : string) :
  r.(error) = JsErrorWrapper code →
  isRDNE r = Normal (JsBool (String.eqb code RESOURCE_DOES_NOT_EXIST)).
Proof. intros He. unfold isResourceDoesNotExist. by rewrite He. Qed.

Lemma isRDNE_descriptor (r : Request) :
  RequestDescriptor r →
  ∃ v, isRDNE r = Normal v ∧
       (ToBoolean v = true ↔ r.(error) = JsErrorWrapper RESOURCE_DOES_NOT_EXIST).
Proof.
  intros [Hf | [code Hc]].
  - exists r.(error). split; [by apply isRDNE_falsy |].
    split; [congruence |]. intros He. by rewrite He in Hf.
  - eexists. split; [by apply isRDNE_wrapper |]. simpl. rewrite Hc.
    rewrite String.eqb_eq. split; [by intros -> | congruence].
Qed.

(** [some] is an OR-reduction when no callback throws. *)
Lemma some_exists {A : Type} (f : A → Completion JsValue) (P : A → Prop) (xs : list A) :
  Forall (λ x, ∃ v, f x = Normal v ∧ (ToBoolean v = true ↔ P x)) xs →
  ∃ b, some f xs = Normal b ∧ (b = true ↔ ∃ x, x ∈ xs ∧ P x).
Proof.
  induction 1 as [| x xs (v & Hfx & Hv) _ (b & Hb & IH)]; simpl.
  - exists false. split; [done |]. split; [done |].
    intros (x & Hx & _). by apply elem_of_nil in Hx.
  - rewrite Hfx. simpl. destruct (ToBoolean v) eqn:Htv.
    + exists true. split; [done |]. split; [| done].
      intros _. exists x. split; [left | by apply Hv].
    + exists b. split; [done |]. rewrite IH. split.
      * intros (y & Hy & HP). exists y. split; [by right | done].
      * intros (y & Hy & HP). apply elem_of_cons in Hy as [-> | Hy].
        -- apply Hv in HP. congruence.
        -- by exists y.
Qed.

(** A falsy callback result is skipped. *)
Lemma some_skip {A : Type} (f : A → Completion JsValue) (xs ys : list A) (x : A) (v : JsValue) :
  f x = Normal v → ToBoolean v = false →
  some f (xs ++ x :: ys) = some f (xs ++ ys).
Proof.
  intros Hfx Hv. induction xs as [| a xs IH]; simpl.
  - rewrite Hfx. simpl. by rewrite Hv.
  - destruct (f a) as [w | e]; simpl; [| done]. by destruct (ToBoolean w).
Qed.

(** What [shouldRender404] computes on request descriptors. *)
Lemma shouldRender404_descriptors (requests : list Request) (ids : list string) :
  Forall RequestDescriptor requests →
  ∃ b, render404 requests ids = Normal b ∧
       (b = true ↔ ∃ r, r ∈ requests ∧ r.(id) ∈ ids ∧
                        r.(error) = JsErrorWrapper RESOURCE_DOES_NOT_EXIST).
Proof.
  intros Hd. unfold shouldRender404.
  destruct (some_exists isRDNE
              (λ r, r.(error) = JsErrorWrapper RESOURCE_DOES_NOT_EXIST)
              (filter (λ request, includes ids request.(id) = true) requests))
    as (b & Hb & Hiff).
  - apply list.Forall_forall. intros r Hr. apply list_elem_of_filter in Hr as [_ Hr].
    apply isRDNE_descriptor. by eapply list.Forall_forall in Hd.
  - exists b. split; [done |]. rewrite Hiff. split.
    + intros (r & Hr & He). apply list_elem_of_filter in Hr as [Hin Hr].
      exists r. by rewrite <- includes_elem_of.
    + intros (r & Hr & Hin & He). exists r. split; [| done].
      apply list_elem_of_filter. by rewrite includes_elem_of.
Qed.

(** A true result always has a cause, whatever the [error] slots hold. *)
Lemma shouldRender404_true_inv (requests : list Request) (ids : list string) :
  render404 requests ids = Normal true →
  ∃ r, r ∈ requests ∧ r.(id) ∈ ids ∧
       r.(error) = JsErrorWrapper RESOURCE_DOES_NOT_EXIST.
Proof.
  unfold shouldRender404. intros Hs.
  assert (∃ r, r ∈ filter (λ request, includes ids request.(id) = true) requests ∧
               r.(error) = JsErrorWrapper RESOURCE_DOES_NOT_EXIST) as (r & Hr & He).
  { revert Hs. generalize (filter (λ request, includes ids request.(id) = true) requests).
    intros xs. induction xs as [| x xs IH]; simpl; [done |].
    destruct (isRDNE x) as [v |] eqn:Hx; simpl; [| done].
    destruct (ToBoolean v) eqn:Hv.
    - intros _. exists x. split; [left |].
      unfold isResourceDoesNotExist in Hx.
      destruct (ToBoolean x.(error)) eqn:Ht.
      + destruct x.(error); simpl in Hx; try done.
        injection Hx as <-. simpl in Hv. apply String.eqb_eq in Hv. by subst.
      + injection Hx as <-. congruence.
    - intros Hs. destruct (IH Hs) as (r & Hr & He). exists r. split; [by right | done]. }
  apply list_elem_of_filter in Hr as [Hin Hr].
  exists r. by rewrite <- includes_elem_of.
Qed.

(** C1. On every list of request descriptors and every list of identifiers,
    [shouldRender404] returns a boolean, and it returns [true] exactly when
    some request whose identifier is among the identifiers to check carries an
    error whose code is RESOURCE_DOES_NOT_EXIST; in particular the empty
    request list yields [false]. *)
Theorem shouldRender404_iff (requests : list Request) (ids : list string) :
  Forall RequestDescriptor requests →
  (∃ b, render404 requests ids = Normal b ∧
        (b = true ↔ ∃ r, r ∈ requests ∧ r.(id) ∈ ids ∧
                         r.(error) = JsErrorWrapper RESOURCE_DOES_NOT_EXIST)) ∧
  render404 [] ids = Normal false.
Proof.
  intros Hd. split; [by apply shouldRender404_descriptors | done].
Qed.

(** C9. [shouldRender404] is monotone in the identifiers to check: on request
    descriptors, a [true] result for [A] stays [true] for every [B] that has
    all elements of [A]; and the result depends on the second argument only
    through membership, not through order or multiplicity. *)
Theorem shouldRender404_monotone (requests : list Request) (A B : list string) :
  (Forall RequestDescriptor requests →
   (∀ x, x ∈ A → x ∈ B) →
   render404 requests A = Normal true → render404 requests B = Normal true) ∧
  ((∀ x, x ∈ A ↔ x ∈ B) → render404 requests A = render404 requests B).
Proof.
  split.
  - intros Hd Hsub HA.
    destruct (shouldRender404_true_inv _ _ HA) as (r & Hr & Hin & He).
    destruct (shouldRender404_descriptors requests B Hd) as (b & Hb & Hiff).
    rewrite Hb. f_equal. apply Hiff. exists r. auto.
  - intros Heq. unfold shouldRender404. f_equal.
    apply list_filter_iff. intros r. rewrite !includes_elem_of. apply Heq.
Qed.

(** C10. A request whose [error] slot is falsy never counts: the callback
    returns the falsy value itself without calling [getErrorCode], so it does
    not throw; dropping the request from the list leaves the result as it is,
    also when its identifier is among those checked; and a list made only of
    such requests yields [false]. *)
Theorem shouldRender404_falsy_error (r : Request) :
  ToBoolean r.(error) = false →
  isRDNE r = Normal r.(error) ∧
  (∀ before after ids,
     render404 (before ++ r :: after) ids = render404 (before ++ after) ids) ∧
  (∀ requests ids,
     Forall (λ r', ToBoolean r'.(error) = false) requests →
     render404 requests ids = Normal false).
Proof.
  intros Hf. split; [by apply isRDNE_falsy |]. split.
  - intros before after ids. unfold shouldRender404.
    rewrite !list.filter_app, list.filter_cons. case_decide; [| done].
    by apply some_skip with (v := r.(error)); [apply isRDNE_falsy |].
  - intros requests ids Hall.
    destruct (shouldRender404_descriptors requests ids) as (b & Hb & Hiff).
    + eapply list.Forall_impl; [exact Hall |]. intros r' Hr'. by left.
    + rewrite Hb. f_equal. destruct b; [| done].
      destruct Hiff as [Hex _]. destruct (Hex eq_refl) as (r' & Hr' & _ & He).
      eapply list.Forall_forall in Hall; [| exact Hr']. by rewrite He in Hall.
Qed.

End UtilsFacts.

(** ** What the aggregation leaves untouched *)

Section UtilsHeapFacts.
Import UtilsHeap.

Variable RESOURCE_DOES_NOT_EXIST : string.

Lemma extends_ret {A : Type} (a : A) : extends (mret a).
Proof. intros h. done. Qed.

Lemma extends_throw {A : Type} (e : JsError) : extends (@throw A e).
Proof. intros h. done. Qed.

Lemma extends_lift {A : Type} (c : Completion A) : extends (lift c).
Proof. intros h. done. Qed.

Lemma extends_bind {A B : Type} (m : M A) (f : A → M B) :
  extends m → (∀ a, extends (f a)) → extends (m ≫= f).
Proof.
  intros Hm Hf h. unfold mbind, M_bind. specialize (Hm h).
  destruct (m h) as [[a | e] h1]; simpl in *; [| done].
  etrans; [exact Hm | apply Hf].
Qed.

Lemma extends_load (l : loc) : extends (load l).
Proof. intros h. unfold load. by destruct (h !! l). Qed.

Lemma extends_alloc (c : Cell) : extends (alloc c).
Proof.
  intros h. unfold alloc. simpl. apply insert_subseteq.
  apply not_elem_of_dom. apply is_fresh.
Qed.

Lemma extends_loadRequest (l : loc) : extends (loadRequest l).
Proof.
  apply extends_bind; [apply extends_load |].
  intros []; [apply extends_ret | apply extends_throw ..].
Qed.

Lemma extends_loadRequestArray (l : loc) : extends (loadRequestArray l).
Proof.
  apply extends_bind; [apply extends_load |].
  intros []; [apply extends_throw | apply extends_ret | apply extends_throw].
Qed.

Lemma extends_loadIdArray (l : loc) : extends (loadIdArray l).
Proof.
  apply extends_bind; [apply extends_load |].
  intros []; [apply extends_throw .. | apply extends_ret].
Qed.

Lemma extends_filterLoop (f : loc → M bool) (elems : list loc) :
  (∀ x, extends (f x)) → extends (filterLoop f elems).
Proof.
  intros Hf. induction elems as [| x elems IH]; simpl; [apply extends_ret |].
  apply extends_bind; [apply Hf |]. intros keep.
  apply extends_bind; [apply IH |]. intros kept. apply extends_ret.
Qed.

Lemma extends_someLoop (f : loc → M JsValue) (elems : list loc) :
  (∀ x, extends (f x)) → extends (someLoop f elems).
Proof.
  intros Hf. induction elems as [| x elems IH]; simpl; [apply extends_ret |].
  apply extends_bind; [apply Hf |]. intros v.
  destruct (ToBoolean v); [apply extends_ret | apply IH].
Qed.

Lemma extends_isResourceDoesNotExist (request : loc) :
  extends (isResourceDoesNotExist RESOURCE_DOES_NOT_EXIST request).
Proof.
  apply extends_bind; [apply extends_loadRequest |]. intros r. simpl.
  destruct (ToBoolean _); [| apply extends_ret].
  apply extends_bind; [apply extends_lift |]. intros code. apply extends_ret.
Qed.

Lemma extends_shouldRender404 (requests ids : loc) :
  extends (shouldRender404 RESOURCE_DOES_NOT_EXIST requests ids).
Proof.
  apply extends_bind.
  - apply extends_bind; [apply extends_loadRequestArray |]. intros elems.
    apply extends_bind; [| intros kept; apply extends_alloc].
    apply extends_filterLoop. intros x.
    apply extends_bind; [apply extends_loadRequest |]. intros r.
    apply extends_bind; [apply extends_loadIdArray |]. intros xs. apply extends_ret.
  - intros requestsToCheck.
    apply extends_bind; [apply extends_loadRequestArray |]. intros elems.
    apply extends_someLoop. apply extends_isResourceDoesNotExist.
Qed.

(** Unfold the outermost bind of the heap monad. *)
Ltac step_bind := unfold mbind at 1; unfold M_bind at 1.

(** Reads of well-shaped cells. *)
Lemma loadRequest_eq (h : Heap) (l : loc) (r : Utils.Request) :
  h !! l = Some (RequestObject r) → loadRequest l h = (Normal r, h).
Proof. intros Hl. unfold loadRequest, mbind, M_bind, load. by rewrite Hl. Qed.

Lemma loadRequestArray_eq (h : Heap) (l : loc) (elems : list loc) :
  h !! l = Some (RequestArray elems) → loadRequestArray l h = (Normal elems, h).
Proof. intros Hl. unfold loadRequestArray, mbind, M_bind, load. by rewrite Hl. Qed.

Lemma loadIdArray_eq (h : Heap) (l : loc) (xs : list string) :
  h !! l = Some (IdArray xs) → loadIdArray l h = (Normal xs, h).
Proof. intros Hl. unfold loadIdArray, mbind, M_bind, load. by rewrite Hl. Qed.

Lemma arrayIncludes_eq (h : Heap) (ids : loc) (xs : list string) (x : string) :
  h !! ids = Some (IdArray xs) → arrayIncludes ids x h = (Normal (includes xs x), h).
Proof.
  intros Hl. unfold arrayIncludes, mbind, M_bind. by rewrite (loadIdArray_eq _ _ _ Hl).
Qed.

(** The filter loop keeps the references of the requests that the list-level
    filter keeps, and writes nothing, when the callback only reads. *)
Lemma filterLoop_reads (h : Heap) (f : loc → M bool) (p : Utils.Request → bool)
    (elems : list loc) (rs : list Utils.Request) :
  (∀ l r, h !! l = Some (RequestObject r) → f l h = (Normal (p r), h)) →
  Forall2 (λ l r, h !! l = Some (RequestObject r)) elems rs →
  ∃ kept,
    filterLoop f elems h = (Normal kept, h) ∧
    Forall2 (λ l r, h !! l = Some (RequestObject r)) kept
      (filter (λ r, p r = true) rs).
Proof.
  intros Hf. induction 1 as [| l r elems rs Hl _ (kept & Hk & IH)].
  - exists []. split; [done | constructor].
  - exists (if p r then l :: kept else kept). split.
    + simpl. step_bind. rewrite (Hf _ _ Hl).
      step_bind. by rewrite Hk.
    + rewrite list.filter_cons. destruct (p r) eqn:Hi.
      * rewrite decide_True by done. by constructor.
      * rewrite decide_False by done. done.
Qed.

Lemma includes_callback_reads (h : Heap) (ids : loc) (xs : list string)
    (l : loc) (r : Utils.Request) :
  h !! ids = Some (IdArray xs) →
  h !! l = Some (RequestObject r) →
  (r' ← loadRequest l; arrayIncludes ids r'.(Utils.id)) h =
  (Normal (includes xs r.(Utils.id)), h).
Proof.
  intros Hids Hl. unfold mbind, M_bind at 1. rewrite (loadRequest_eq _ _ _ Hl).
  by apply arrayIncludes_eq.
Qed.

(** The [some] loop over request objects agrees with the list-level [some],
    and writes nothing. *)
Lemma someLoop_isResourceDoesNotExist (h : Heap) (elems : list loc)
    (rs : list Utils.Request) :
  Forall2 (λ l r, h !! l = Some (RequestObject r)) elems rs →
  someLoop (isResourceDoesNotExist RESOURCE_DOES_NOT_EXIST) elems h =
  (some (Utils.isResourceDoesNotExist RESOURCE_DOES_NOT_EXIST) rs, h).
Proof.
  induction 1 as [| l r elems rs Hl _ IH]; [done |].
  simpl. step_bind.
  unfold isResourceDoesNotExist at 1. step_bind.
  rewrite (loadRequest_eq _ _ _ Hl). unfold Utils.isResourceDoesNotExist.
  destruct (ToBoolean r.(Utils.error)) eqn:Ht.
  - step_bind. unfold lift.
    destruct (getErrorCode r.(Utils.error)) as [code | e]; simpl; [| done].
    destruct (String.eqb code RESOURCE_DOES_NOT_EXIST); [done | apply IH].
  - simpl. rewrite Ht. apply IH.
Qed.

(** On a well-shaped heap the heap-level function returns what the list-level
    function returns on the lists the heap holds. *)
Lemma shouldRender404_refines (h : Heap) (requests ids : loc)
    (rs : list Utils.Request) (xs : list string) :
  represents h requests ids rs xs →
  (shouldRender404 RESOURCE_DOES_NOT_EXIST requests ids h).1 =
  Utils.shouldRender404 RESOURCE_DOES_NOT_EXIST rs xs.
Proof.
  intros (elems & Hreq & Hobjs & Hids).
  destruct (filterLoop_reads h
              (λ request, r ← loadRequest request; arrayIncludes ids r.(Utils.id))
              (λ r, includes xs r.(Utils.id)) elems rs) as (kept & Hk & Hkept);
    [intros l r Hl; by apply includes_callback_reads | done |].
  unfold shouldRender404. step_bind.
  unfold arrayFilter. step_bind.
  rewrite (loadRequestArray_eq _ _ _ Hreq).
  step_bind. rewrite Hk. unfold alloc.
  set (l := fresh (dom h)). set (h' := <[l := RequestArray kept]> h).
  assert (h ⊆ h') as Hsub.
  { apply insert_subseteq. apply not_elem_of_dom. apply is_fresh. }
  unfold arraySome. step_bind.
  rewrite (loadRequestArray_eq h' l kept) by apply lookup_insert_eq.
  rewrite (someLoop_isResourceDoesNotExist h' kept
             (filter (λ r, includes xs r.(Utils.id) = true) rs)); [done |].
  eapply list.Forall2_impl; [exact Hkept |]. intros l0 r0 Hl0.
  exact (lookup_weaken h h' _ _ Hl0 Hsub).
Qed.

(** C8. Evaluating [shouldRender404] leaves its inputs as they were: every
    cell of the heap before the call (the request array, each request in it,
    the identifier array, and anything else) holds the same contents after the
    call, whether it returns or throws; on a heap that holds a request list
    and an identifier list, the heap still holds the same lists afterwards. *)
Theorem shouldRender404_reads_only (h : Heap) (requests ids : loc) :
  let h' := (shouldRender404 RESOURCE_DOES_NOT_EXIST requests ids h).2 in
  (∀ l c, h !! l = Some c → h' !! l = Some c) ∧
  (∀ rs xs, represents h requests ids rs xs → represents h' requests ids rs xs).
Proof.
  intros h'.
  assert (h ⊆ h') as Hsub by apply extends_shouldRender404.
  split.
  - intros l c Hl. exact (lookup_weaken h h' _ _ Hl Hsub).
  - intros rs xs (elems & Hreq & Hobjs & Hids). exists elems.
    split; [exact (lookup_weaken h h' _ _ Hreq Hsub) |].
    split; [| exact (lookup_weaken h h' _ _ Hids Hsub)].
    eapply list.Forall2_impl; [exact Hobjs |]. intros l r Hl.
    exact (lookup_weaken h h' _ _ Hl Hsub).
Qed.

End UtilsHeapFacts.

(** ** Records built over defaults *)

Section ImmutableFacts.
Import Immutable.

Lemma assoc_None {A : Type} (k : string) (fields : list (string * A)) :
  assoc k fields = None ↔ k ∉ fields.*1.
Proof.
  induction fields as [| [k' v] fields IH]; simpl.
  - split; [intros _; apply not_elem_of_nil | done].
  - rewrite not_elem_of_cons. destruct (String.eqb k' k) eqn:Hk.
    + apply String.eqb_eq in Hk. split; [done | intros [Hne _]; congruence].
    + apply String.eqb_neq in Hk. rewrite IH. split; [by split | tauto].
Qed.




Lemma property_withoutProperty_ne (k k' : string) (values : json) :
  k ≠ k' → property k' (withoutProperty k values) = property k' values.
Proof.
  intros Hne. destruct values as [| | | | | fields |]; simpl; try done.
  induction fields as [| [k1 v1] fields IH]; [done |].
  rewrite list.filter_cons. simpl. destruct (String.eqb k1 k) eqn:Hk1.
  - apply String.eqb_eq in Hk1. subst k1.
    rewrite decide_False by done. rewrite IH.
    by rewrite (proj2 (String.eqb_neq k k')).
  - rewrite decide_True by done. simpl. by rewrite IH.
Qed.

Lemma property_withoutProperty_eq (k : string) (values : json) :
  property k (withoutProperty k values) = None.
Proof.
  destruct values as [| | | | | fields |]; simpl; try done.
  induction fields as [| [k1 v1] fields IH]; [done |].
  rewrite list.filter_cons. simpl. destruct (String.eqb k1 k) eqn:Hk1.
  - by rewrite decide_False.
  - rewrite decide_True by done. simpl. by rewrite Hk1.
Qed.

(** Field by field: a declared field reads the map's value for it, or the
    default when the map has none; no other field exists. *)
Lemma lookup_withDefaults (T : RecordType) (map : list (string * json)) (k : string) :
  withDefaults T map !! k =
  (λ d, default d (assoc k map)) <$> T.(defaultValues) !! k.
Proof.
  unfold withDefaults. rewrite map_lookup_imap. by destruct (T.(defaultValues) !! k).
Qed.

Lemma withDefaults_instanceOf (T : RecordType) (map : list (string * json)) :
  instanceOf T (withDefaults T map).
Proof.
  unfold instanceOf. apply set_eq. intros k.
  rewrite !elem_of_dom, lookup_withDefaults. by rewrite fmap_is_Some.
Qed.

Lemma defaults_instanceOf (T : RecordType) : instanceOf T (defaults T).
Proof. done. Qed.

(** A map without any of the declared fields gives the defaults. *)
Lemma withDefaults_no_field (T : RecordType) (map : list (string * json)) :
  (∀ k, is_Some (T.(defaultValues) !! k) → assoc k map = None) →
  withDefaults T map = defaults T.
Proof.
  intros Hnone. apply map_eq. intros k. rewrite lookup_withDefaults. unfold defaults.
  destruct (T.(defaultValues) !! k) as [d |] eqn:Hd; [| done].
  simpl. by rewrite Hnone.
Qed.

Lemma withDefaults_nil (T : RecordType) : withDefaults T [] = defaults T.
Proof. by apply withDefaults_no_field. Qed.

(** The constructor returns exactly when [Map] accepts the argument, and
    throws what [Map] throws. *)
Lemma construct_Normal (T : RecordType) (values : json) (r : gmap string json) :
  construct T values = Normal r ↔
  ∃ map, Map values = Normal map ∧ r = withDefaults T map.
Proof.
  unfold construct. destruct (Map values) as [map | e]; simpl.
  - split; [intros [= <-]; by exists map | by intros (map' & [= <-] & ->)].
  - split; [discriminate | by intros (map' & Hm & _)].
Qed.



Lemma construct_instanceOf (T : RecordType) (values : json) (r : gmap string json) :
  construct T values = Normal r → instanceOf T r.
Proof.
  intros (map & _ & ->)%construct_Normal. apply withDefaults_instanceOf.
Qed.

(** Without an argument's worth of data: [null] and [undefined] give the
    defaults. *)
Lemma construct_null (T : RecordType) :
  construct T JNull = Normal (defaults T) ∧
  construct T JUndefined = Normal (defaults T).
Proof. unfold construct. simpl. by rewrite withDefaults_nil. Qed.

(** A number, a boolean and a string are refused. *)
Lemma construct_primitive (T : RecordType) (b : bool) (n : Z) (s : string) :
  construct T (JBool b) = Throw TypeError ∧
  construct T (JNumber n) = Throw TypeError ∧
  construct T (JString s) = Throw TypeError.
Proof. done. Qed.

(** A property the record type does not declare has no influence. *)
Lemma construct_withoutProperty (T : RecordType) (values : json) (k : string) :
  T.(defaultValues) !! k = None →
  construct T (withoutProperty k values) = construct T values.
Proof.
  intros Hk. destruct values as [| | | | | fields |]; try done.
  unfold construct. simpl. f_equal. apply map_eq. intros i.
  rewrite !lookup_withDefaults.
  destruct (T.(defaultValues) !! i) as [d |] eqn:Hd; [| done].
  simpl. f_equal.
  apply (f_equal (default d)).
  apply (property_withoutProperty_ne k i (JObject fields)). congruence.
Qed.


End ImmutableFacts.

(** ** Decoding stored payloads *)

Section StorageCodecFacts.
Import Immutable StorageCodec.

Context {Store : Type} {port : StoragePort Store} {codec : PayloadCodec}.



Lemma decode_parsed (pageKind : RecordType) (contextKey : string) (store : Store)
    (payload : string) (values : json) :
  getItem store (storageKey pageKind contextKey) = Some payload →
  parse payload = Some values →
  decode pageKind contextKey store = construct pageKind values.
Proof. intros Hget Hparse. unfold decode. by rewrite Hget, Hparse. Qed.





(** C6. When the stored payload has a property that the schema does not
    declare, [decode] still yields a record value with exactly the declared
    fields; the property is not among them, and the result is the one the
    payload without that property would give. *)
Theorem decode_undeclared_field (pageKind : RecordType) (contextKey : string)
    (store : Store) (payload : string) (values : json) (field : string) (v : json) :
  getItem store (storageKey pageKind contextKey) = Some payload →
  parse payload = Some values →
  property field values = Some v →
  pageKind.(defaultValues) !! field = None →
  ∃ state,
    decode pageKind contextKey store = Normal state ∧
    instanceOf pageKind state ∧
    state !! field = None ∧
    (field ∉ dom state) ∧
    construct pageKind (withoutProperty field values) = Normal state.
Proof.
  intros Hget Hparse Hprop Hundeclared.
  rewrite (decode_parsed _ _ _ _ _ Hget Hparse).
  destruct values as [| | | | | fields |]; try discriminate Hprop.
  exists (withDefaults pageKind fields).
  assert (withDefaults pageKind fields !! field = None) as Hnone.
  { by rewrite lookup_withDefaults, Hundeclared. }
  split; [done |].
  split; [apply withDefaults_instanceOf |].
  split; [done |].
  split; [by apply not_elem_of_dom |].
  by rewrite construct_withoutProperty.
Qed.

(** What [encode] does, by the answer of the store. *)
Lemma encode_accepted (pageKind : RecordType) (contextKey : string)
    (state : gmap string json) (store store' : Store) :
  setItem store (storageKey pageKind contextKey) (stringify (toJSON state)) = Some store' →
  encode pageKind contextKey state store = store'.
Proof. intros Hset. unfold encode. by rewrite Hset. Qed.




End StorageCodecFacts.

(** ** The in-memory store, the bounded store and the binary format *)

Section FakesFacts.
Import Fakes.



(** The bounded store accepts a payload that fits. *)
Lemma BoundedStore_accepted (store : Bounded) (key : StorageKey) (payload : string) :
  (String.length payload ≤ store.(free))%nat →
  setItem (StoragePort := BoundedStore) store key payload =
  Some {| items := <[key := payload]> store.(items);
          free := store.(free) - String.length payload |}.
Proof. intros Hfits. simpl. by rewrite decide_True. Qed.


Lemma positiveOfBits_bitsOfPositive (p : positive) :
  positiveOfBits (bitsOfPositive p) = Some p.
Proof. induction p as [p IH | p IH |]; simpl; [by rewrite IH .. | done]. Qed.

(** Induction on JSON values, through the lists of arrays and objects. *)
Lemma json_nested_ind (P : json → Prop) :
  P JNull → (∀ b, P (JBool b)) → (∀ n, P (JNumber n)) → (∀ s, P (JString s)) →
  (∀ xs, Forall P xs → P (JArray xs)) →
  (∀ fields, Forall (λ kv, P kv.2) fields → P (JObject fields)) →
  P JUndefined →
  ∀ j, P j.
Proof.
  intros HN HB HZ HS HA HO HU. fix IH 1. intros [| b | n | s | xs | fields |].
  - apply HN.
  - apply HB.
  - apply HZ.
  - apply HS.
  - apply HA. induction xs as [| x xs IHxs]; constructor; [apply IH | apply IHxs].
  - apply HO. induction fields as [| [k v] fields IHf]; constructor;
      [apply IH | apply IHf].
  - apply HU.
Qed.

Lemma mapM_map_Some {A B : Type} (f : B → option A) (g : A → B) (xs : list A) :
  Forall (λ x, f (g x) = Some x) xs → mapM f (map g xs) = Some xs.
Proof.
  induction 1 as [| x xs Hx _ IH]; simpl; [done |].
  rewrite Hx. simpl. by rewrite IH.
Qed.

Lemma treeToJson_jsonToTree (j : json) : treeToJson (jsonToTree j) = Some j.
Proof.
  induction j as [| b | n | s | xs IH | fields IH |] using json_nested_ind;
    simpl; try done.
  - by rewrite (mapM_map_Some treeToJson jsonToTree xs IH).
  - rewrite (mapM_map_Some _ _ fields); [done |].
    eapply list.Forall_impl; [exact IH |]. intros [k v] Hv. simpl in *. by rewrite Hv.
Qed.

(** The binary format loses nothing. *)
Lemma BitCodec_parse_stringify (j : json) :
  parse (PayloadCodec := BitCodec) (stringify (PayloadCodec := BitCodec) j) = Some j.
Proof.
  simpl. rewrite positiveOfBits_bitsOfPositive. simpl.
  rewrite decode_encode. simpl. apply treeToJson_jsonToTree.
Qed.


End FakesFacts.

(** ** Split-out columns keep their order *)

Section ColumnBaggingFacts.
Import Immutable ColumnBaggingModel.

Lemma sequenceField_inj (c c' : ColumnKind) :
  sequenceField c = sequenceField c' → c = c'.
Proof. by destruct c, c'. Qed.

Lemma sameKind_eq (c c' : ColumnKind) : sameKind c c' = true ↔ c = c'.
Proof. by destruct c, c'. Qed.

Lemma orderedSequence_withSequence (state : gmap string json) (c : ColumnKind)
    (xs : list json) :
  orderedSequence (withSequence state c xs) c = xs.
Proof.
  unfold orderedSequence, withSequence, get. by rewrite lookup_insert_eq.
Qed.

Lemma orderedSequence_withSequence_other (state : gmap string json)
    (c c' : ColumnKind) (xs : list json) :
  c ≠ c' → orderedSequence (withSequence state c xs) c' = orderedSequence state c'.
Proof.
  intros Hne. unfold orderedSequence, withSequence, get.
  rewrite lookup_insert_ne; [done |].
  intros Heq. by apply sequenceField_inj in Heq.
Qed.

Lemma isKey_JString (key : string) (x : json) :
  isKey key x = true ↔ x = JString key.
Proof.
  destruct x; simpl; try (split; [done | discriminate]).
  rewrite String.eqb_eq. split; [by intros -> | by intros [= ->]].
Qed.

Lemma existsb_isKey (key : string) (xs : list json) :
  existsb (isKey key) xs = true ↔ JString key ∈ xs.
Proof.
  rewrite existsb_exists. split.
  - intros (x & Hx & Hk). apply isKey_JString in Hk. subst x. by apply list_elem_of_In.
  - intros Hin. exists (JString key). split; [by apply list_elem_of_In |].
    by apply isKey_JString.
Qed.

Lemma existsb_isKey_false (key : string) (xs : list json) :
  existsb (isKey key) xs = false ↔ JString key ∉ xs.
Proof.
  rewrite <- existsb_isKey. destruct (existsb (isKey key) xs); split; congruence.
Qed.

Lemma key_elem_of_cases (key : string) (xs : list json) :
  JString key ∈ xs ∨ JString key ∉ xs.
Proof.
  destruct (existsb (isKey key) xs) eqn:Hex.
  - left. by apply existsb_isKey.
  - right. by apply existsb_isKey_false.
Qed.

Lemma filter_all {A : Type} (P : A → Prop) `{!∀ x, Decision (P x)} (xs : list A) :
  Forall P xs → filter P xs = xs.
Proof.
  induction 1 as [| x xs Hx _ IH]; [done |].
  rewrite list.filter_cons, decide_True by done. by rewrite IH.
Qed.

Lemma filter_filter_impl {A : Type} (P Q : A → Prop)
    `{!∀ x, Decision (P x)} `{!∀ x, Decision (Q x)} (xs : list A) :
  (∀ x, P x → Q x) → filter P (filter Q xs) = filter P xs.
Proof.
  intros HPQ. induction xs as [| x xs IH]; [done |].
  rewrite !list.filter_cons. destruct (decide (Q x)) as [HQ | HQ].
  - rewrite list.filter_cons. by rewrite IH.
  - rewrite decide_False; [done |]. intros HP. by apply HQ, HPQ.
Qed.

(** What the two operations do to the sequence of their own column kind and
    to the sequence of the other one. *)
Lemma split_present (state : gmap string json) (c : ColumnKind) (key : string) :
  JString key ∈ orderedSequence state c → split state c key = state.
Proof. intros Hin. unfold split. by rewrite (proj2 (existsb_isKey _ _) Hin). Qed.

Lemma split_absent (state : gmap string json) (c : ColumnKind) (key : string) :
  JString key ∉ orderedSequence state c →
  orderedSequence (split state c key) c = orderedSequence state c ++ [JString key].
Proof.
  intros Hnot. unfold split. rewrite (proj2 (existsb_isKey_false _ _) Hnot).
  apply orderedSequence_withSequence.
Qed.

Lemma split_other (state : gmap string json) (c c' : ColumnKind) (key : string) :
  c ≠ c' → orderedSequence (split state c key) c' = orderedSequence state c'.
Proof.
  intros Hne. unfold split. destruct (existsb _ _); [done |].
  by apply orderedSequence_withSequence_other.
Qed.

Lemma merge_sequence (state : gmap string json) (c : ColumnKind) (key : string) :
  orderedSequence (merge state c key) c =
  filter (λ x, isKey key x = false) (orderedSequence state c).
Proof.
  unfold merge. destruct (existsb (isKey key) (orderedSequence state c)) eqn:Hex.
  - apply orderedSequence_withSequence.
  - symmetry. apply filter_all. apply list.Forall_forall. intros x Hx.
    destruct (isKey key x) eqn:Hk; [| done].
    apply isKey_JString in Hk. subst x.
    apply existsb_isKey_false in Hex. done.
Qed.

Lemma merge_other (state : gmap string json) (c c' : ColumnKind) (key : string) :
  c ≠ c' → orderedSequence (merge state c key) c' = orderedSequence state c'.
Proof.
  intros Hne. unfold merge. destruct (existsb _ _); [| done].
  by apply orderedSequence_withSequence_other.
Qed.

Lemma merge_absent (state : gmap string json) (c : ColumnKind) (key : string) :
  JString key ∉ orderedSequence state c → merge state c key = state.
Proof.
  intros Hnot. unfold merge. by rewrite (proj2 (existsb_isKey_false _ _) Hnot).
Qed.

(** After a split the key is in the sequence. *)
Lemma split_elem_of (state : gmap string json) (c : ColumnKind) (key : string) :
  JString key ∈ orderedSequence (split state c key) c.
Proof.
  destruct (key_elem_of_cases key (orderedSequence state c)) as [Hin | Hnot].
  - by rewrite split_present.
  - rewrite split_absent by done. apply elem_of_app. right. by left.
Qed.

Lemma split_idempotent (state : gmap string json) (c : ColumnKind) (key : string) :
  split (split state c key) c key = split state c key.
Proof. apply split_present, split_elem_of. Qed.

(** [precedes], read off the list from its head. *)
Lemma precedes_occursBefore (x y : json) (xs : list json) :
  precedes x y xs ↔ occursBefore x y xs.
Proof.
  split.
  - intros (xs1 & xs2 & xs3 & ->). induction xs1 as [| a xs1 IH]; simpl.
    + left. split; [done |]. set_solver.
    + by right.
  - induction xs as [| a xs IH]; simpl; [done |].
    intros [[-> Hy] | Hrec].
    + apply list_elem_of_split in Hy as (xs2 & xs3 & ->). by exists [], xs2, xs3.
    + destruct (IH Hrec) as (xs1 & xs2 & xs3 & ->). by exists (a :: xs1), xs2, xs3.
Qed.

Lemma occursBefore_elem_of (x y : json) (xs : list json) :
  occursBefore x y xs → y ∈ xs.
Proof.
  induction xs as [| a xs IH]; simpl; [done |].
  intros [[_ Hy] | Hrec]; [by right | right; by apply IH].
Qed.

Lemma occursBefore_filter (P : json → Prop) `{!∀ z, Decision (P z)}
    (x y : json) (xs : list json) :
  P x → P y → occursBefore x y (filter P xs) ↔ occursBefore x y xs.
Proof.
  intros Hx Hy. induction xs as [| a xs IH]; [done |].
  rewrite list.filter_cons. destruct (decide (P a)) as [Ha | Ha]; simpl.
  - rewrite IH, list_elem_of_filter. tauto.
  - rewrite IH. split; [by right |]. intros [[-> _] | Hrec]; done.
Qed.

Lemma occursBefore_app_l (x y : json) (xs added : list json) :
  y ∉ added → occursBefore x y (xs ++ added) ↔ occursBefore x y xs.
Proof.
  intros Hy. induction xs as [| a xs IH]; simpl.
  - split; [| done]. intros Hrec. by apply occursBefore_elem_of in Hrec.
  - rewrite IH, elem_of_app. tauto.
Qed.

Lemma mergedOut_cons (c : ColumnKind) (op : Operation) (ops : list Operation) (x : json) :
  mergedOut c (op :: ops) x = false →
  mergedOut c ops x = false ∧
  ∀ key, op = Merge c key → isKey key x = false.
Proof.
  unfold mergedOut. simpl. intros Hm. apply orb_false_iff in Hm as [Hop Hrest].
  split; [done |]. intros key ->.
  by rewrite (proj2 (sameKind_eq c c)) in Hop.
Qed.

(** Through any run, the elements that no merge of the run targets stay in the
    sequence in the order they had, and what the run adds comes after them. *)
Lemma run_kept (c : ColumnKind) (ops : list Operation) (state : gmap string json) :
  ∃ added,
    filter (λ x, mergedOut c ops x = false) (orderedSequence (run ops state) c) =
    filter (λ x, mergedOut c ops x = false) (orderedSequence state c) ++ added ∧
    Forall (λ x, x ∉ orderedSequence state c) added.
Proof.
  assert (∀ (P : json → Prop) `{!∀ z, Decision (P z)},
            (∀ x, P x → mergedOut c ops x = false) →
            ∃ added,
              filter P (orderedSequence (run ops state) c) =
              filter P (orderedSequence state c) ++ added ∧
              Forall (λ x, P x ∧ x ∉ orderedSequence state c) added) as Hgen.
  { revert state. induction ops as [| op ops IH]; intros state P HdecP HP.
    - exists []. split; [by rewrite app_nil_r | constructor].
    - simpl.
      assert (∀ x, P x → mergedOut c ops x = false) as HP'.
      { intros x Hx. by apply (mergedOut_cons c op ops x), HP. }
      destruct (IH (apply state op) P _ HP') as (added & Heq & Hadded).
      destruct op as [c' key | c' key]; simpl in *.
      + destruct (decide (c' = c)) as [-> | Hne];
          [| rewrite split_other in Heq, Hadded by done; by exists added].
        destruct (key_elem_of_cases key (orderedSequence state c)) as [Hin | Hnot].
        * rewrite (split_present state c key Hin) in *. by exists added.
        * rewrite split_absent in Heq, Hadded by done.
          rewrite list.filter_app in Heq.
          exists (filter P [JString key] ++ added). split; [by rewrite app_assoc |].
          apply Forall_app. split.
          -- apply list.Forall_forall. intros x Hx.
             apply list_elem_of_filter in Hx as [HPx Hx].
             apply list_elem_of_singleton in Hx. by subst x.
          -- eapply list.Forall_impl; [exact Hadded |]. simpl.
             intros x [HPx Hx]. split; [done |]. set_solver.
      + destruct (decide (c' = c)) as [-> | Hne];
          [| rewrite merge_other in Heq, Hadded by done; by exists added].
        rewrite merge_sequence in Heq, Hadded.
        assert (∀ x, P x → isKey key x = false) as HPkey.
        { intros x Hx. by apply (mergedOut_cons c (Merge c key) ops x (HP x Hx)). }
        rewrite filter_filter_impl in Heq by done.
        exists added. split; [done |].
        eapply list.Forall_impl; [exact Hadded |]. simpl.
        intros x [HPx Hx]. split; [done |]. intros Hin. apply Hx.
        apply list_elem_of_filter. split; [by apply HPkey | done]. }
  destruct (Hgen (λ x, mergedOut c ops x = false) _) as (added & Heq & Hadded); [done |].
  exists added. split; [done |].
  eapply list.Forall_impl; [exact Hadded |]. by intros x [_ Hx].
Qed.

(** C4, as it holds. Through every finite sequence of split and merge
    operations, the keys of a sequence that are there before the run and that
    no merge of the run removes are there after it, in the same relative
    order.  Splitting an absent key appends it at the end of its sequence and
    leaves the sequence of the other column kind alone; merging removes the
    key and keeps the rest in order.  Into an empty sequence, splitting three
    distinct keys in turn gives exactly these three in that order, and merging
    the second then leaves the first and the third. *)
Theorem split_merge_order :
  (∀ (state : gmap string json) (c : ColumnKind) (ops : list Operation) (x y : json),
     x ∈ orderedSequence state c → y ∈ orderedSequence state c →
     mergedOut c ops x = false → mergedOut c ops y = false →
     x ∈ orderedSequence (run ops state) c ∧
     y ∈ orderedSequence (run ops state) c ∧
     (precedes x y (orderedSequence state c) ↔
      precedes x y (orderedSequence (run ops state) c))) ∧
  (∀ (state : gmap string json) (c c' : ColumnKind) (key : string),
     JString key ∉ orderedSequence state c →
     orderedSequence (split state c key) c =
       orderedSequence state c ++ [JString key] ∧
     (c ≠ c' → orderedSequence (split state c key) c' = orderedSequence state c')) ∧
  (∀ (state : gmap string json) (c c' : ColumnKind) (key : string),
     orderedSequence (merge state c key) c =
       filter (λ x, isKey key x = false) (orderedSequence state c) ∧
     (c ≠ c' → orderedSequence (merge state c key) c' = orderedSequence state c')) ∧
  (∀ (state : gmap string json) (c : ColumnKind) (k1 k2 k3 : string),
     orderedSequence state c = [] →
     k1 ≠ k2 → k1 ≠ k3 → k2 ≠ k3 →
     let state3 := run [Split c k1; Split c k2; Split c k3] state in
     orderedSequence state3 c = [JString k1; JString k2; JString k3] ∧
     orderedSequence (merge state3 c k2) c = [JString k1; JString k3]).
Proof.
  split; [| split; [| split]].
  - intros state c ops x y Hx Hy Hkx Hky.
    destruct (run_kept c ops state) as (added & Heq & Hadded).
    assert (∀ z, z ∈ orderedSequence state c → mergedOut c ops z = false →
                 z ∈ orderedSequence (run ops state) c) as Hstay.
    { intros z Hz Hkz.
      assert (z ∈ filter (λ x, mergedOut c ops x = false)
                    (orderedSequence (run ops state) c)) as Hin.
      { rewrite Heq. apply elem_of_app. left. by apply list_elem_of_filter. }
      by apply list_elem_of_filter in Hin as [_ Hin]. }
    split; [by apply Hstay |]. split; [by apply Hstay |].
    rewrite !precedes_occursBefore.
    rewrite <- (occursBefore_filter (λ z, mergedOut c ops z = false) x y
                  (orderedSequence (run ops state) c)) by done.
    rewrite Heq. rewrite occursBefore_app_l.
    + by rewrite occursBefore_filter.
    + intros Hin. eapply list.Forall_forall in Hadded; [| exact Hin]. done.
  - intros state c c' key Hnot.
    split; [by apply split_absent | intros Hne; by apply split_other].
  - intros state c c' key.
    split; [apply merge_sequence | intros Hne; by apply merge_other].
  - intros d c k1 k2 k3 H0 H12 H13 H23 state3. subst state3.
    change (run [Split c k1; Split c k2; Split c k3] d)
      with (split (split (split d c k1) c k2) c k3).
    assert (orderedSequence (split d c k1) c = [JString k1]) as H1.
    { rewrite split_absent; rewrite H0; [done | apply not_elem_of_nil]. }
    assert (orderedSequence (split (split d c k1) c k2) c = [JString k1; JString k2])
      as H2.
    { rewrite split_absent; rewrite H1; [done |].
      rewrite list_elem_of_singleton. congruence. }
    assert (orderedSequence (split (split (split d c k1) c k2) c k3) c =
            [JString k1; JString k2; JString k3]) as H3.
    { rewrite split_absent; rewrite H2; [done |].
      rewrite !elem_of_cons, elem_of_nil. intros [? | [? | []]]; congruence. }
    split; [exact H3 |].
    rewrite merge_sequence, H3.
    rewrite !list.filter_cons, list.filter_nil. simpl.
    rewrite String.eqb_refl.
    rewrite (proj2 (String.eqb_neq k1 k2)) by done.
    rewrite (proj2 (String.eqb_neq k3 k2)) by done.
    done.
Qed.

(** C7. [split] is idempotent: splitting the same key of the same column kind
    a second time changes neither the state nor the ordered sequence, and
    splitting a key that is in the sequence changes nothing at all. *)
Theorem split_twice (state : gmap string json) (c : ColumnKind) (key : string) :
  split (split state c key) c key = split state c key ∧
  orderedSequence (split (split state c key) c key) c =
    orderedSequence (split state c key) c ∧
  (JString key ∈ orderedSequence state c → split state c key = state).
Proof.
  split; [apply split_idempotent |].
  split; [by rewrite split_idempotent | apply split_present].
Qed.

End ColumnBaggingFacts.

(** * Instances on concrete inputs *)

Section Witnesses.
Import Immutable MlflowLocalStorageMessages StorageCodec ColumnBaggingModel Fakes.
Import Examples.

Abbreviation RDNE := "RESOURCE_DOES_NOT_EXIST".

Lemma exampleRequests_descriptors (code : string) :
  Forall Utils.RequestDescriptor (exampleRequests code).
Proof.
  apply Forall_cons; [by left |].
  apply Forall_cons; [right; by eexists | apply Forall_nil].
Qed.

Example shouldRender404_example_both :
  Utils.shouldRender404 "RESOURCE_DOES_NOT_EXIST"
    (exampleRequests "RESOURCE_DOES_NOT_EXIST") ["a"; "b"] = Normal true.
Proof. reflexivity. Qed.

Example shouldRender404_example_a_only :
  Utils.shouldRender404 "RESOURCE_DOES_NOT_EXIST"
    (exampleRequests "RESOURCE_DOES_NOT_EXIST") ["a"] = Normal false.
Proof. reflexivity. Qed.

Example shouldRender404_example_other_code :
  Utils.shouldRender404 "RESOURCE_DOES_NOT_EXIST"
    (exampleRequests "INTERNAL_ERROR") ["a"; "b"] = Normal false.
Proof. reflexivity. Qed.

(** Outside the descriptors a truthy [error] without the method makes the call
    throw. *)
Example shouldRender404_example_throw :
  Utils.shouldRender404 "RESOURCE_DOES_NOT_EXIST"
    [Utils.mkRequest "a" (JsString "boom")] ["a"] = Throw TypeError.
Proof. reflexivity. Qed.

Lemma shouldRender404_iff_witness :
  Forall Utils.RequestDescriptor (exampleRequests "RESOURCE_DOES_NOT_EXIST") ∧
  ((∃ b, Utils.shouldRender404 "RESOURCE_DOES_NOT_EXIST"
           (exampleRequests "RESOURCE_DOES_NOT_EXIST") ["a"; "b"] = Normal b ∧
         (b = true ↔
          ∃ r, r ∈ exampleRequests "RESOURCE_DOES_NOT_EXIST" ∧
               r.(Utils.id) ∈ ["a"; "b"] ∧
               r.(Utils.error) = JsErrorWrapper "RESOURCE_DOES_NOT_EXIST")) ∧
   Utils.shouldRender404 "RESOURCE_DOES_NOT_EXIST" [] ["a"; "b"] = Normal false).
Proof.
  split; [apply exampleRequests_descriptors |].
  apply (shouldRender404_iff "RESOURCE_DOES_NOT_EXIST"
           (exampleRequests "RESOURCE_DOES_NOT_EXIST") ["a"; "b"]).
  apply exampleRequests_descriptors.
Defined.

Lemma shouldRender404_monotone_witness :
  Utils.shouldRender404 "RESOURCE_DOES_NOT_EXIST"
    (exampleRequests "RESOURCE_DOES_NOT_EXIST") ["b"; "c"; "a"] = Normal true ∧
  Utils.shouldRender404 "RESOURCE_DOES_NOT_EXIST"
    (exampleRequests "RESOURCE_DOES_NOT_EXIST") ["b"] =
  Utils.shouldRender404 "RESOURCE_DOES_NOT_EXIST"
    (exampleRequests "RESOURCE_DOES_NOT_EXIST") ["b"; "b"].
Proof.
  split.
  - apply (proj1 (shouldRender404_monotone "RESOURCE_DOES_NOT_EXIST"
                    (exampleRequests "RESOURCE_DOES_NOT_EXIST") ["b"] ["b"; "c"; "a"])).
    + apply exampleRequests_descriptors.
    + intros x Hx. apply list_elem_of_singleton in Hx. subst x. left.
    + reflexivity.
  - apply (proj2 (shouldRender404_monotone "RESOURCE_DOES_NOT_EXIST"
                    (exampleRequests "RESOURCE_DOES_NOT_EXIST") ["b"] ["b"; "b"])).
    intros x. rewrite !elem_of_cons. tauto.
Defined.

Lemma shouldRender404_falsy_error_witness :
  ToBoolean (Utils.mkRequest "a" JsNull).(Utils.error) = false ∧
  Utils.isResourceDoesNotExist "RESOURCE_DOES_NOT_EXIST" (Utils.mkRequest "a" JsNull)
    = Normal JsNull.
Proof.
  split; [reflexivity |].
  apply (shouldRender404_falsy_error "RESOURCE_DOES_NOT_EXIST"
           (Utils.mkRequest "a" JsNull)).
  reflexivity.
Defined.

Lemma shouldRender404_reads_only_witness :
  let h := exampleHeap RDNE in
  let h' := (UtilsHeap.shouldRender404 RDNE 1%positive 2%positive h).2 in
  h !! 1%positive = Some (UtilsHeap.RequestArray [3; 4]%positive) ∧
  h' !! 1%positive = Some (UtilsHeap.RequestArray [3; 4]%positive) ∧
  h' !! 2%positive = Some (UtilsHeap.IdArray ["a"; "b"]) ∧
  h' !! 4%positive =
    Some (UtilsHeap.RequestObject (Utils.mkRequest "b" (JsErrorWrapper RDNE))).
Proof.
  intros h h'. split; [reflexivity |].
  split; [| split];
    apply (proj1 (shouldRender404_reads_only RDNE h 1%positive 2%positive));
    reflexivity.
Defined.

Example shouldRender404_heap_example :
  (UtilsHeap.shouldRender404 RDNE 1%positive 2%positive (exampleHeap RDNE)).1 =
  Normal true.
Proof. reflexivity. Qed.

(** What the record constructor does with data that is not an object. *)
Example construct_example_refused :
  construct ExperimentPagePersistedState (JNumber 5) = Throw TypeError ∧
  construct ExperimentPagePersistedState (JBool true) = Throw TypeError ∧
  construct ExperimentPagePersistedState (JString "abc") = Throw TypeError ∧
  construct ExperimentPagePersistedState (JArray [JNumber 1; JNumber 2]) = Throw TypeError.
Proof. repeat split. Qed.

Example construct_example_entries :
  construct ExperimentPagePersistedState entriesPayload =
  Normal (<["orderByAsc" := JBool true]> (defaults ExperimentPagePersistedState)) ∧
  construct ExperimentPagePersistedState (JArray [JNull; JNumber 0; JArray []]) =
  Normal (defaults ExperimentPagePersistedState) ∧
  construct ExperimentPagePersistedState
    (JArray [JArray [JString "searchInput"; JString "a"];
             JArray [JString "searchInput"; JString "b"]]) =
  Normal (<["searchInput" := JString "b"]> (defaults ExperimentPagePersistedState)).
Proof. repeat split; vm_compute; reflexivity. Qed.




Example decode_missing_field_example :
  decode (port := MemoryStore) (codec := BitCodec)
    ExperimentPagePersistedState "0" (storeWith (@stringify BitCodec partialPayload)) =
  Normal (<["orderByAsc" := JBool true]> (defaults ExperimentPagePersistedState)).
Proof. vm_compute. reflexivity. Qed.

Lemma decode_undeclared_field_witness :
  let store := storeWith (@stringify BitCodec legacyPayload) in
  property "legacyField" legacyPayload = Some (JNumber 7) ∧
  ExperimentPagePersistedState.(defaultValues) !! "legacyField" = None ∧
  ∃ state,
    decode (port := MemoryStore) (codec := BitCodec)
      ExperimentPagePersistedState "0" store = Normal state ∧
    instanceOf ExperimentPagePersistedState state ∧
    state !! "legacyField" = None ∧
    ("legacyField" ∉ dom state) ∧
    construct ExperimentPagePersistedState partialPayload = Normal state.
Proof.
  intros store. split; [reflexivity |]. split; [reflexivity |].
  apply (@decode_undeclared_field _ MemoryStore BitCodec
           ExperimentPagePersistedState "0" store
           (@stringify BitCodec legacyPayload) legacyPayload "legacyField" (JNumber 7)
           (lookup_singleton_eq _ _) (BitCodec_parse_stringify _) eq_refl eq_refl).
Defined.






(** C4, as stated, fails when a key is merged and split again: [a] and [b]
    are in the sequence before and after, and their order has changed. *)
Lemma split_merge_order_counterexample :
  let before := orderedSequence twoMetrics Metric in
  let after :=
    orderedSequence (run [Merge Metric "a"; Split Metric "a"] twoMetrics) Metric in
  JString "a" ∈ before ∧ JString "b" ∈ before ∧
  JString "a" ∈ after ∧ JString "b" ∈ after ∧
  precedes (JString "a") (JString "b") before ∧
  ¬ precedes (JString "a") (JString "b") after.
Proof.
  intros before after.
  assert (before = [JString "a"; JString "b"]) as -> by reflexivity.
  assert (after = [JString "b"; JString "a"]) as -> by reflexivity.
  split; [by left |]. split; [right; by left |].
  split; [right; by left |]. split; [by left |]. split.
  - by exists [], [], [].
  - rewrite precedes_occursBefore. simpl.
    intros [[Heq _] | [[_ Hin] | []]]; [discriminate Heq | by apply elem_of_nil in Hin].
Qed.

Lemma split_merge_order_witness :
  let after :=
    orderedSequence (run [Merge Metric "c"; Split Metric "c"] twoMetrics) Metric in
  (JString "a" ∈ after ∧ JString "b" ∈ after ∧
   (precedes (JString "a") (JString "b") (orderedSequence twoMetrics Metric) ↔
    precedes (JString "a") (JString "b") after)) ∧
  orderedSequence
    (run [Split Param "x"; Split Param "y"; Split Param "z"]
       (defaults ExperimentViewPersistedState)) Param =
  [JString "x"; JString "y"; JString "z"].
Proof.
  intros after. split.
  - apply (proj1 split_merge_order twoMetrics Metric
             [Merge Metric "c"; Split Metric "c"] (JString "a") (JString "b")).
    + by left.
    + right; by left.
    + reflexivity.
    + reflexivity.
  - apply (proj2 (proj2 (proj2 split_merge_order))
             (defaults ExperimentViewPersistedState) Param "x" "y" "z");
      [reflexivity | discriminate ..].
Defined.

Lemma split_twice_witness :
  JString "a" ∈ orderedSequence twoMetrics Metric ∧
  split twoMetrics Metric "a" = twoMetrics.
Proof.
  split; [by left |].
  apply (split_twice twoMetrics Metric "a"). by left.
Defined.

End Witnesses.

(** * Further properties of the sources *)

(** ** [shouldRender404], outcome by outcome *)

Section UtilsCasesFacts.
Import Utils UtilsCases.

Variable RESOURCE_DOES_NOT_EXIST : string.

Abbreviation callback := (isResourceDoesNotExist RESOURCE_DOES_NOT_EXIST).
Abbreviation run404 := (shouldRender404 RESOURCE_DOES_NOT_EXIST).
Abbreviation skips := (passedOver RESOURCE_DOES_NOT_EXIST).

Lemma callback_passedOver (r : Request) :
  skips r → ∃ v, callback r = Normal v ∧ ToBoolean v = false.
Proof.
  intros [Hf | (code & He & Hne)].
  - exists r.(error). split; [| done]. unfold isResourceDoesNotExist. by rewrite Hf.
  - exists (JsBool false). split; [| done]. unfold isResourceDoesNotExist.
    rewrite He. simpl. by rewrite (proj2 (String.eqb_neq _ _) Hne).
Qed.

Lemma callback_found (r : Request) :
  r.(error) = JsErrorWrapper RESOURCE_DOES_NOT_EXIST →
  callback r = Normal (JsBool true).
Proof.
  intros He. unfold isResourceDoesNotExist. rewrite He. simpl.
  by rewrite String.eqb_refl.
Qed.

Lemma callback_malformed (r : Request) :
  malformed r → callback r = Throw TypeError.
Proof.
  intros [Ht Hnot]. unfold isResourceDoesNotExist. rewrite Ht.
  destruct r.(error) as [| | b | n | | s | code |] eqn:He; simpl; [done .. | | done].
  exfalso. by apply (Hnot code).
Qed.

(** Every request falls under exactly one of the three cases; here, under at
    least one. *)
Lemma callback_cases (r : Request) :
  skips r ∨ r.(error) = JsErrorWrapper RESOURCE_DOES_NOT_EXIST ∨ malformed r.
Proof.
  unfold passedOver, malformed.
  destruct (ToBoolean r.(error)) eqn:Ht; [| left; by left].
  destruct r.(error) as [| | b | n | | s | code |];
    try discriminate Ht; try (right; right; by split).
  destruct (decide (code = RESOURCE_DOES_NOT_EXIST)) as [-> | Hne].
  - right. by left.
  - left. right. by exists code.
Qed.

Lemma some_passedOver (xs : list Request) :
  Forall skips xs → some callback xs = Normal false.
Proof.
  induction 1 as [| x xs Hx _ IH]; [done |].
  destruct (callback_passedOver x Hx) as (v & Hv & Hf).
  simpl. rewrite Hv. simpl. by rewrite Hf.
Qed.

(** The requests passed over in front do not count: the first other request
    decides. *)
Lemma some_first_decisive (pre post : list Request) (r : Request) :
  Forall skips pre →
  some callback (pre ++ r :: post) = some callback (r :: post).
Proof.
  induction 1 as [| x pre Hx _ IH]; [done |].
  destruct (callback_passedOver x Hx) as (v & Hv & Hf).
  simpl. rewrite Hv. simpl. by rewrite Hf.
Qed.

Lemma some_outcome (xs : list Request) :
  (Forall skips xs ∧ some callback xs = Normal false) ∨
  ∃ pre r post,
    xs = pre ++ r :: post ∧ Forall skips pre ∧
    ((r.(error) = JsErrorWrapper RESOURCE_DOES_NOT_EXIST ∧
      some callback xs = Normal true) ∨
     (malformed r ∧ some callback xs = Throw TypeError)).
Proof.
  induction xs as [| x xs IH].
  - left. by split.
  - destruct (callback_cases x) as [Hskip | [Hfound | Hbad]].
    + destruct (callback_passedOver x Hskip) as (v & Hv & Hf).
      assert (some callback (x :: xs) = some callback xs) as Hstep.
      { simpl. rewrite Hv. simpl. by rewrite Hf. }
      rewrite Hstep.
      destruct IH as [[Hall Hres] | (pre & r & post & -> & Hpre & Hres)].
      * left. split; [by constructor | done].
      * right. exists (x :: pre), r, post. split; [done |].
        split; [by constructor | done].
    + right. exists [], x, xs. split; [done |]. split; [constructor |].
      left. split; [done |]. simpl. by rewrite (callback_found x Hfound).
    + right. exists [], x, xs. split; [done |]. split; [constructor |].
      right. split; [done |]. simpl. by rewrite (callback_malformed x Hbad).
Qed.

(** [some] over a concatenation: the second part is looked at only when the
    first part yields [false]. *)
Lemma some_app {A : Type} (f : A → Completion JsValue) (xs ys : list A) :
  some f (xs ++ ys) =
  match some f xs with
  | Normal false => some f ys
  | outcome => outcome
  end.
Proof.
  induction xs as [| x xs IH]; [done |].
  simpl. destruct (f x) as [v | e]; simpl; [| done].
  by destruct (ToBoolean v).
Qed.

(** X1. With no identifiers to check the result is [false], whatever the
    requests hold: nothing is looked at, so nothing can throw. *)
Theorem shouldRender404_no_ids (requests : list Request) :
  run404 requests [] = Normal false.
Proof.
  unfold shouldRender404.
  assert (filter (λ request, includes [] request.(id) = true) requests = []) as ->;
    [| done].
  induction requests as [| r requests IH]; [done |].
  by rewrite list.filter_cons, decide_False.
Qed.

(** X2. A request whose identifier is not among those to check has no
    influence on the result, not even when its [error] slot would make the
    callback throw. *)
Theorem shouldRender404_unchecked (r : Request) (before after : list Request)
    (ids : list string) :
  r.(id) ∉ ids →
  run404 (before ++ r :: after) ids = run404 (before ++ after) ids.
Proof.
  intros Hnot. unfold shouldRender404.
  rewrite !list.filter_app, list.filter_cons.
  rewrite decide_False; [done |].
  intros Hin. apply Hnot. by apply includes_elem_of.
Qed.

(** X3. Over a concatenation of request lists the second list is consulted
    only when the first yields [false]: a [true] or a throw of the first list
    is the result, whatever the second list holds. *)
Theorem shouldRender404_app (requests1 requests2 : list Request) (ids : list string) :
  run404 (requests1 ++ requests2) ids =
  match run404 requests1 ids with
  | Normal false => run404 requests2 ids
  | outcome => outcome
  end.
Proof.
  unfold shouldRender404. rewrite list.filter_app. apply some_app.
Qed.

(** X4. The three outcomes of [shouldRender404], each characterised by the
    first request to check that is not passed over: [true] when that request
    carries the RESOURCE_DOES_NOT_EXIST code, a [TypeError] when its [error]
    slot is truthy without [getErrorCode], and [false] when every request to
    check is passed over. *)
Theorem shouldRender404_outcomes (requests : list Request) (ids : list string) :
  (run404 requests ids = Normal true ↔
   ∃ pre r post,
     requestsToCheck requests ids = pre ++ r :: post ∧ Forall skips pre ∧
     r.(error) = JsErrorWrapper RESOURCE_DOES_NOT_EXIST) ∧
  (run404 requests ids = Throw TypeError ↔
   ∃ pre r post,
     requestsToCheck requests ids = pre ++ r :: post ∧ Forall skips pre ∧
     malformed r) ∧
  (run404 requests ids = Normal false ↔ Forall skips (requestsToCheck requests ids)).
Proof.
  unfold shouldRender404. fold (requestsToCheck requests ids).
  generalize (requestsToCheck requests ids). intros xs.
  split; [| split]; split.
  - intros Hres.
    destruct (some_outcome xs)
      as [[_ Hf] | (pre & r & post & Hxs & Hpre & [[He _] | [_ Ht]])]; try congruence.
    by exists pre, r, post.
  - intros (pre & r & post & -> & Hpre & He).
    rewrite some_first_decisive by done. simpl. by rewrite (callback_found r He).
  - intros Hres.
    destruct (some_outcome xs)
      as [[_ Hf] | (pre & r & post & Hxs & Hpre & [[_ Ht] | [Hbad _]])]; try congruence.
    by exists pre, r, post.
  - intros (pre & r & post & -> & Hpre & Hbad).
    rewrite some_first_decisive by done. simpl. by rewrite (callback_malformed r Hbad).
  - intros Hres.
    destruct (some_outcome xs)
      as [[Hall _] | (pre & r & post & Hxs & Hpre & [[_ Ht] | [_ Ht]])];
      [exact Hall | congruence ..].
  - apply some_passedOver.
Qed.

(** X5. On request descriptors the result depends on the request list only
    through its members: two lists with the same members, in any order and
    with any repetitions, give the same result. *)
Theorem shouldRender404_same_members (requests requests' : list Request)
    (ids : list string) :
  Forall RequestDescriptor requests →
  (∀ r, r ∈ requests ↔ r ∈ requests') →
  run404 requests ids = run404 requests' ids.
Proof.
  intros Hd Hsame.
  assert (Forall RequestDescriptor requests') as Hd'.
  { apply list.Forall_forall. intros r Hr. apply Hsame in Hr.
    by eapply list.Forall_forall in Hd. }
  destruct (shouldRender404_descriptors RESOURCE_DOES_NOT_EXIST requests ids Hd)
    as (b & -> & Hb).
  destruct (shouldRender404_descriptors RESOURCE_DOES_NOT_EXIST requests' ids Hd')
    as (b' & -> & Hb').
  f_equal. apply eq_true_iff_eq. rewrite Hb, Hb'.
  split; intros (r & Hr & Hrest); exists r; (split; [by apply Hsame | done]).
Qed.

End UtilsCasesFacts.

(** ** What a call of [shouldRender404] does to the heap *)

Section UtilsHeapEffect.
Import UtilsHeap.

Variable RESOURCE_DOES_NOT_EXIST : string.

Ltac unfold_bind := unfold mbind at 1; unfold M_bind at 1.

(** X6. On a heap that holds the request list and the identifier list, the
    call returns what the list-level function returns on these lists, and its
    only effect is one new array, at a location that was free: the result of
    [filter], holding the references of the requests to check. *)
Theorem shouldRender404_allocates (h : Heap) (requests ids : loc)
    (rs : list Utils.Request) (xs : list string) :
  represents h requests ids rs xs →
  ∃ kept,
    shouldRender404 RESOURCE_DOES_NOT_EXIST requests ids h =
      (Utils.shouldRender404 RESOURCE_DOES_NOT_EXIST rs xs,
       <[fresh (dom h) := RequestArray kept]> h) ∧
    h !! fresh (dom h) = None ∧
    Forall2 (λ l r, h !! l = Some (RequestObject r)) kept
      (UtilsCases.requestsToCheck rs xs).
Proof.
  intros (elems & Hreq & Hobjs & Hids).
  destruct (filterLoop_reads h
              (λ request, r ← loadRequest request; arrayIncludes ids r.(Utils.id))
              (λ r, includes xs r.(Utils.id)) elems rs) as (kept & Hk & Hkept);
    [intros l r Hl; by apply includes_callback_reads | done |].
  assert (h !! fresh (dom h) = None) as Hfresh.
  { apply not_elem_of_dom. apply is_fresh. }
  exists kept. split; [| split; [exact Hfresh | exact Hkept]].
  unfold shouldRender404. unfold_bind.
  unfold arrayFilter. unfold_bind.
  rewrite (loadRequestArray_eq _ _ _ Hreq).
  unfold_bind. rewrite Hk. unfold alloc.
  set (l := fresh (dom h)) in *. set (h' := <[l := RequestArray kept]> h).
  assert (h ⊆ h') as Hsub by (by apply insert_subseteq).
  unfold arraySome. unfold_bind.
  rewrite (loadRequestArray_eq h' l kept) by apply lookup_insert_eq.
  apply (someLoop_isResourceDoesNotExist RESOURCE_DOES_NOT_EXIST h' kept).
  eapply list.Forall2_impl; [exact Hkept |]. intros l0 r0 Hl0.
  exact (lookup_weaken h h' _ _ Hl0 Hsub).
Qed.

End UtilsHeapEffect.

(** ** Stored data under a changed record type

    The three changes that the header of MlflowLocalStorageMessages.js speaks
    of: a field is added, a field is removed, a field changes its type. *)

Section RecordEvolution.
Import Immutable SchemaChange.

Lemma withDefaults_withField (T : RecordType) (field : string) (d : json)
    (map : list (string * json)) :
  withDefaults (withField T field d) map =
  <[field := default d (assoc field map)]> (withDefaults T map).
Proof.
  apply map_eq. intros k. rewrite lookup_withDefaults. simpl.
  destruct (decide (field = k)) as [-> | Hne].
  - by rewrite !lookup_insert_eq.
  - rewrite !lookup_insert_ne by done. by rewrite lookup_withDefaults.
Qed.

Lemma withDefaults_withoutField (T : RecordType) (field : string)
    (map : list (string * json)) :
  withDefaults (withoutField T field) map = delete field (withDefaults T map).
Proof.
  apply map_eq. intros k. rewrite lookup_withDefaults. simpl.
  destruct (decide (field = k)) as [-> | Hne].
  - by rewrite !lookup_delete_eq.
  - rewrite !lookup_delete_ne by done. by rewrite lookup_withDefaults.
Qed.

(** X7. Adding a field is backwards-compatible: on old data that the
    constructor accepts and that has no entry for the field, the record built
    under the extended type has the new field at its default, and every other
    field as the old type gave it. *)
Theorem construct_added_field (T : RecordType) (field : string) (d : json)
    (values : json) (map : list (string * json)) :
  Map values = Normal map →
  assoc field map = None →
  construct (withField T field d) values = insert field d <$> construct T values ∧
  construct (withField T field d) values = Normal (<[field := d]> (withDefaults T map)).
Proof.
  intros Hmap Hnone. unfold construct. rewrite Hmap. simpl.
  by rewrite withDefaults_withField, Hnone.
Qed.

(** X8. Removing a field is backwards-compatible: under the reduced type the
    record built from old data is the one the old type gave, without that
    field; what the old data holds for it is ignored.  Data that the
    constructor refuses under the old type it refuses under the reduced
    one. *)
Theorem construct_removed_field (T : RecordType) (field : string) (values : json) :
  construct (withoutField T field) values = delete field <$> construct T values.
Proof.
  unfold construct. destruct (Map values) as [map | e]; simpl; [| done].
  by rewrite withDefaults_withoutField.
Qed.

(** X9. Changing the default of a field, and with it its type, does not reach
    old data: where the old data has the field, the record built under the
    changed type holds the old value, not the new default. *)
Theorem construct_retyped_field (T : RecordType) (field : string) (d' : json)
    (values : json) (v : json) :
  property field values = Some v →
  (∃ r, construct (withField T field d') values = Normal r ∧ r !! field = Some v) ∧
  construct (withField T field d') values = insert field v <$> construct T values.
Proof.
  intros Hsome. destruct values as [| | | | | fields |]; try discriminate Hsome.
  simpl in Hsome. unfold construct. simpl.
  rewrite withDefaults_withField, Hsome. simpl.
  split; [| done]. eexists. split; [done | apply lookup_insert_eq].
Qed.

End RecordEvolution.

(** ** The rows of the model version table *)

Section ModelVersionTableFacts.
Import ModelVersionTable.

Variable ACTIVE_STAGES : list string.

Abbreviation rows := (versions ACTIVE_STAGES).

Lemma includes_stage (stage : string) :
  includes ACTIVE_STAGES stage = true ↔ stage ∈ ACTIVE_STAGES.
Proof.
  unfold includes. rewrite existsb_exists. split.
  - intros (y & Hy & Heq). apply String.eqb_eq in Heq. subst y.
    by apply list_elem_of_In.
  - intros Hx. exists stage.
    split; [by apply list_elem_of_In | apply String.eqb_refl].
Qed.

Lemma versions_sublist (props : Props) :
  rows props `sublist_of` props.(modelVersions).
Proof.
  unfold versions. destruct props.(activeStageOnly); [apply sublist_filter | done].
Qed.

(** X10. The table shows model versions of the props only, in the order of
    the props: its rows are a sublist of [modelVersions]; a version is shown
    exactly when it is in the props and, with [activeStageOnly], its stage is
    an active one. *)
Theorem versions_shown (props : Props) :
  rows props `sublist_of` props.(modelVersions) ∧
  ∀ v, v ∈ rows props ↔
       v ∈ props.(modelVersions) ∧
       (props.(activeStageOnly) = false ∨ v.(current_stage) ∈ ACTIVE_STAGES).
Proof.
  split; [apply versions_sublist |].
  intros v. unfold versions. destruct props.(activeStageOnly).
  - rewrite list_elem_of_filter, includes_stage. split.
    + intros [Hstage Hin]. split; [done | by right].
    + intros [Hin [Hoff | Hstage]]; [done | by split].
  - split; [intros Hin; split; [done | by left] | by intros [Hin _]].
Qed.

(** X11. When the creation timestamps of the model versions are pairwise
    distinct, so are the row keys of the table, with and without
    [activeStageOnly]. *)
Theorem versions_row_keys (props : Props) :
  NoDup (getRowKey <$> props.(modelVersions)) →
  NoDup (getRowKey <$> rows props).
Proof.
  intros Hnd.
  apply (sublist_NoDup _ (getRowKey <$> props.(modelVersions)) Hnd).
  apply fmap_sublist, versions_sublist.
Qed.

End ModelVersionTableFacts.

(** ** The further properties on concrete inputs *)

Section MoreWitnesses.
Import Immutable MlflowLocalStorageMessages SchemaChange ModelVersionTable.
Import Examples MoreExamples.

Abbreviation NOT_FOUND := "RESOURCE_DOES_NOT_EXIST".

Abbreviation activeStages := ["Staging"; "Production"].

Lemma shouldRender404_unchecked_witness :
  (brokenRequest.(Utils.id) ∉ ["a"; "b"]) ∧
  Utils.shouldRender404 NOT_FOUND
    ([Utils.mkRequest "a" JsUndefined] ++
     brokenRequest :: [Utils.mkRequest "b" (JsErrorWrapper NOT_FOUND)]) ["a"; "b"] =
  Utils.shouldRender404 NOT_FOUND
    ([Utils.mkRequest "a" JsUndefined] ++
     [Utils.mkRequest "b" (JsErrorWrapper NOT_FOUND)]) ["a"; "b"].
Proof.
  assert (brokenRequest.(Utils.id) ∉ ["a"; "b"]) as Hnot.
  { simpl. rewrite !elem_of_cons, elem_of_nil. intros [? | [? | []]]; discriminate. }
  split; [exact Hnot |].
  apply (shouldRender404_unchecked NOT_FOUND brokenRequest
           [Utils.mkRequest "a" JsUndefined]
           [Utils.mkRequest "b" (JsErrorWrapper NOT_FOUND)] ["a"; "b"] Hnot).
Defined.

Lemma brokenRequest_malformed : UtilsCases.malformed brokenRequest.
Proof. split; [reflexivity | intros code; discriminate]. Qed.

Lemma shouldRender404_outcomes_witness :
  UtilsCases.requestsToCheck
    [Utils.mkRequest "a" JsUndefined; brokenRequest] ["a"; "z"] =
    [Utils.mkRequest "a" JsUndefined] ++ brokenRequest :: [] ∧
  Utils.shouldRender404 NOT_FOUND
    [Utils.mkRequest "a" JsUndefined; brokenRequest] ["a"; "z"] = Throw TypeError.
Proof.
  split; [reflexivity |].
  apply (proj2 (proj1 (proj2 (shouldRender404_outcomes NOT_FOUND
           [Utils.mkRequest "a" JsUndefined; brokenRequest] ["a"; "z"])))).
  exists [Utils.mkRequest "a" JsUndefined], brokenRequest, [].
  split; [reflexivity |]. split; [| exact brokenRequest_malformed].
  apply Forall_cons; [by left | apply Forall_nil].
Defined.

Lemma shouldRender404_same_members_witness :
  Utils.shouldRender404 NOT_FOUND (exampleRequests NOT_FOUND) ["b"] =
  Utils.shouldRender404 NOT_FOUND
    [Utils.mkRequest "b" (JsErrorWrapper NOT_FOUND);
     Utils.mkRequest "a" JsUndefined;
     Utils.mkRequest "b" (JsErrorWrapper NOT_FOUND)] ["b"].
Proof.
  apply (shouldRender404_same_members NOT_FOUND).
  - apply exampleRequests_descriptors.
  - intros r. unfold exampleRequests. rewrite !elem_of_cons, !elem_of_nil. tauto.
Defined.

Lemma exampleHeap_represents :
  UtilsHeap.represents (exampleHeap NOT_FOUND) 1%positive 2%positive
    (exampleRequests NOT_FOUND) ["a"; "b"].
Proof.
  exists [3; 4]%positive. split; [reflexivity |]. split; [| reflexivity].
  apply Forall2_cons; [reflexivity |].
  apply Forall2_cons; [reflexivity | apply Forall2_nil].
Qed.

Lemma shouldRender404_allocates_witness :
  ∃ kept,
    UtilsHeap.shouldRender404 NOT_FOUND 1%positive 2%positive (exampleHeap NOT_FOUND) =
      (Utils.shouldRender404 NOT_FOUND (exampleRequests NOT_FOUND) ["a"; "b"],
       <[fresh (dom (exampleHeap NOT_FOUND)) := UtilsHeap.RequestArray kept]>
         (exampleHeap NOT_FOUND)) ∧
    exampleHeap NOT_FOUND !! fresh (dom (exampleHeap NOT_FOUND)) = None ∧
    Forall2 (λ l r, exampleHeap NOT_FOUND !! l = Some (UtilsHeap.RequestObject r)) kept
      (UtilsCases.requestsToCheck (exampleRequests NOT_FOUND) ["a"; "b"]).
Proof.
  apply (shouldRender404_allocates NOT_FOUND (exampleHeap NOT_FOUND)
           1%positive 2%positive (exampleRequests NOT_FOUND) ["a"; "b"]).
  apply exampleHeap_represents.
Defined.

Lemma construct_added_field_witness :
  let map := [("searchInput", JString "metrics.rmse < 1"); ("orderByAsc", JBool true)] in
  Map oldPageData = Normal map ∧
  assoc "lifecycleFilter" map = None ∧
  construct (withField ExperimentPagePersistedState "lifecycleFilter"
               lifecycleFilterDefault) oldPageData =
  insert "lifecycleFilter" lifecycleFilterDefault <$>
    construct ExperimentPagePersistedState oldPageData ∧
  construct (withField ExperimentPagePersistedState "lifecycleFilter"
               lifecycleFilterDefault) oldPageData =
  Normal (<["lifecycleFilter" := lifecycleFilterDefault]>
            (withDefaults ExperimentPagePersistedState map)).
Proof.
  intros map. split; [reflexivity |]. split; [reflexivity |].
  apply (construct_added_field ExperimentPagePersistedState "lifecycleFilter"
           lifecycleFilterDefault oldPageData map eq_refl eq_refl).
Defined.

(** Old data given as entries, with an entry for the new field: the field
    holds the entry's value, not the new default. *)
Example construct_added_field_entries :
  construct (withField ExperimentPagePersistedState "lifecycleFilter"
               lifecycleFilterDefault) oldPageEntries =
  Normal (<["lifecycleFilter" := JString "X"]>
            (defaults ExperimentPagePersistedState)).
Proof. vm_compute. reflexivity. Qed.

Lemma construct_retyped_field_witness :
  property "orderByAsc" oldPageData = Some (JBool true) ∧
  ∃ r,
    construct (withField ExperimentPagePersistedState "orderByAsc" (JString "asc"))
      oldPageData = Normal r ∧
    r !! "orderByAsc" = Some (JBool true).
Proof.
  split; [reflexivity |].
  apply (construct_retyped_field ExperimentPagePersistedState "orderByAsc"
           (JString "asc") oldPageData (JBool true)).
  reflexivity.
Defined.

Lemma versions_shown_witness :
  productionVersion ∈ versions activeStages (exampleProps true) ∧
  (archivedVersion ∈ versions activeStages (exampleProps true) →
   archivedVersion.(current_stage) ∈ activeStages).
Proof.
  split.
  - apply (proj2 (versions_shown activeStages (exampleProps true))).
    split; [right; right; left |]. right. right. left.
  - intros Hin.
    apply (proj2 (versions_shown activeStages (exampleProps true))) in Hin
      as [_ [Hoff | Hstage]]; [discriminate Hoff | exact Hstage].
Defined.

Lemma versions_row_keys_witness :
  NoDup (getRowKey <$> (exampleProps true).(modelVersions)) ∧
  NoDup (getRowKey <$> versions activeStages (exampleProps true)).
Proof.
  assert (NoDup (getRowKey <$> (exampleProps true).(modelVersions))) as Hnd.
  { apply (bool_decide_unpack _). by vm_compute. }
  split; [exact Hnd |].
  apply (versions_row_keys activeStages (exampleProps true) Hnd).
Defined.

Example versions_example :
  versions activeStages (exampleProps true) = [stagingVersion; productionVersion] ∧
  versions activeStages (exampleProps false) =
    [stagingVersion; archivedVersion; productionVersion].
Proof. split; reflexivity. Qed.

End MoreWitnesses.
